(** * PodMonitorReconciler: a shallow embedding of
      internal/controller/podmonitor_controller.go

    The controller has two reconciliation paths, dispatched on the request:
    - the pod path ([reconcilePod]) deduplicates container restarts against
      the package-level map [observedRestarts] and publishes the gauge
      [pod_monitor_container_last_termination_info];
    - the secret path ([reconcileSecret]) parses the certificates stored in
      the secret [linkerd/linkerd-identity-issuer] and publishes two gauges.

    Modelling choices:
    - Go's [int32] restart counters and [int64] exit codes are [Z]; the code
      only compares and prints them, so no wrap-around arises.
    - [time.Time] is its wall reading (Unix seconds, nanoseconds);
      [time.Duration] is an int64 count of nanoseconds, with the saturation
      of [Time.Sub] written out.
    - A [float64] metric value is a rational [Q]: float rounding is not
      modelled.
    - The Prometheus sink is the log of the operations issued to it;
      [gauge_state] replays that log into the series of one gauge vector.
    - The Kubernetes client is a snapshot [Cluster] answering [Get].
    - [pem.Decode], [x509.ParseCertificate], [time.Now] and Go's map
      iteration order are library behaviour; they are the variables of the
      section [Controller]. *)

From Stdlib Require Import ZArith QArith Qfield Lia.
From stdpp Require Import base gmap strings pretty list.

Open Scope Z_scope.

(** ** Time *)

(** [time.Time]: seconds since the Unix epoch and nanoseconds in [0, 1e9). *)
Record Time := mkTime { t_sec : Z; t_nsec : Z }.

(** [t.Unix()] *)
Definition Time_Unix (t : Time) : Z := t_sec t.

(** [t.Before(u)] *)
Definition Time_Before (t u : Time) : bool :=
  (t_sec t <? t_sec u) || ((t_sec t =? t_sec u) && (t_nsec t <? t_nsec u)).

(** [time.Duration] constants, in nanoseconds. *)
Definition Second : Z := 1000000000.
Definition Hour : Z := 3600 * Second.
Definition minDuration : Z := - 2 ^ 63.
Definition maxDuration : Z := 2 ^ 63 - 1.

(** [t.Sub(u)]: the difference in nanoseconds when it fits in an int64
    (the [u.Add(d).Equal(t)] check of the Go library), otherwise
    [minDuration] or [maxDuration]. *)
Definition Time_Sub (t u : Time) : Z :=
  let d := (t_sec t - t_sec u) * Second + (t_nsec t - t_nsec u) in
  if (minDuration <=? d) && (d <=? maxDuration) then d
  else if Time_Before t u then minDuration else maxDuration.

(** [d.Hours()]:
    [hour := d / Hour; nsec := d % Hour; float64(hour) + float64(nsec)/(60*60*1e9)]
    (Go's [/] and [%] truncate, as [Z.quot] and [Z.rem]). *)
Definition Duration_Hours (d : Z) : Q :=
  inject_Z (Z.quot d Hour) + inject_Z (Z.rem d Hour) / inject_Z (60 * 60 * 1000000000).

(** ** Kubernetes objects *)

Definition bytes := list Byte.byte.

(** [corev1.ContainerStateTerminated] (the fields the controller reads). *)
Record ContainerStateTerminated := mkTerminated {
  Reason : string;
  ExitCode : Z;
  FinishedAt : Time
}.

(** [corev1.ContainerStatus]; [LastTerminationState.Terminated] is a
    pointer, [None] for nil. *)
Record ContainerStatus := mkContainerStatus {
  cs_Name : string;
  RestartCount : Z;
  LastTerminated : option ContainerStateTerminated
}.

(** [corev1.Pod] *)
Record Pod := mkPod {
  pod_Namespace : string;
  pod_Name : string;
  ContainerStatuses : list ContainerStatus
}.

(** [corev1.Secret] *)
Record Secret := mkSecret {
  secret_Namespace : string;
  secret_Name : string;
  Data : gmap string bytes
}.

(** API errors of [r.Get]: not found, or any other failure. *)
Inductive ApiError :=
| ErrNotFound
| ErrOther (msg : string).

(** [client.IgnoreNotFound(err) != nil] *)
Definition ignore_not_found_fails (e : ApiError) : bool :=
  match e with ErrNotFound => false | ErrOther _ => true end.

(** A snapshot of the cluster, answering [r.Get(ctx, req.NamespacedName, &obj)]. *)
Record Cluster := mkCluster {
  get_pod : string -> string -> ApiError + Pod;
  get_secret : string -> string -> ApiError + Secret
}.

(** [ctrl.Request] and [ctrl.Result]. *)
Record Request := mkRequest { req_Namespace : string; req_Name : string }.

Record Result := mkResult { Requeue : bool; RequeueAfter : Z }.

(** [ctrl.Result{}] *)
Definition Result0 : Result := mkResult false 0.

(** ** Certificates *)

(** [pem.Block] (type and DER bytes) and the fields of [x509.Certificate]
    the controller reads. *)
Record Block := mkBlock { block_Type : string; block_Bytes : bytes }.

Record Certificate := mkCertificate { NotAfter : Time }.

(** Errors of [parseCertificateFromPEM]:
    [fmt.Errorf("failed to parse PEM block")] and
    [fmt.Errorf("failed to parse certificate: %w", err)]. *)
Inductive CertError (X509Error : Type) :=
| ErrPEMBlock
| ErrParseCertificate (inner : X509Error).
Arguments ErrPEMBlock {X509Error}.
Arguments ErrParseCertificate {X509Error} inner.

(** ** Prometheus sink *)

(** The three gauge vectors and their declared label names. *)
Inductive Family :=
| PodLastTerminationInfo
| CertificateExpirationTime
| CertificateDaysUntilExpiration.

Definition Family_eq_dec : EqDecision Family.
Proof. solve_decision. Defined.
#[global] Existing Instance Family_eq_dec.

Definition label_names (f : Family) : list string :=
  match f with
  | PodLastTerminationInfo => ["namespace"; "pod"; "container"; "reason"; "exit_code"]
  | CertificateExpirationTime | CertificateDaysUntilExpiration =>
      ["namespace"; "secret_name"; "cert_type"]
  end.

(** [prometheus.Labels] literal. *)
Definition Labels := list (string * string).

Fixpoint labels_get (n : string) (ls : Labels) : option string :=
  match ls with
  | [] => None
  | (m, v) :: ls' => if String.eqb n m then Some v else labels_get n ls'
  end.

(** The operations the controller issues to the sink:
    [vec.With(labels).Set(v)] and [vec.DeletePartialMatch(labels)]. *)
Inductive SinkOp :=
| GaugeSet (f : Family) (ls : Labels) (v : Q)
| GaugeDeletePartialMatch (f : Family) (ls : Labels).

(** The series of one gauge vector: label values (in declared order) to value. *)
Abbreviation Series := (gmap (list string) Q).

(** [With(labels)] resolves the label values in declared order; it panics
    when one is missing, which no call site of the controller does. *)
Definition label_values (f : Family) (ls : Labels) : option (list string) :=
  mapM (fun n => labels_get n ls) (label_names f).

(** [DeletePartialMatch]: a series matches when each given label has the
    given value in it. *)
Definition partial_match (f : Family) (ls : Labels) (lv : list string) : bool :=
  forallb (fun '(n, v) => bool_decide (labels_get n (zip (label_names f) lv) = Some v)) ls.

Definition apply_op (f : Family) (g : Series) (op : SinkOp) : Series :=
  match op with
  | GaugeSet f' ls v =>
      if decide (f = f') then
        match label_values f ls with Some lv => <[lv := v]> g | None => g end
      else g
  | GaugeDeletePartialMatch f' ls =>
      if decide (f = f') then filter (fun '(lv, _) => partial_match f ls lv = false) g
      else g
  end.

Definition gauge_state (f : Family) (g0 : Series) (log : list SinkOp) : Series :=
  fold_left (apply_op f) log g0.

(** ** Controller state *)

(** The package-level variables the reconciler mutates: the map
    [observedRestarts] (key ["namespace/podName/containerName"]), the
    operations issued to the metrics registry, and the number of
    [time.Now()] readings so far. *)
Record World := mkWorld {
  observedRestarts : gmap string Z;
  sink : list SinkOp;
  clk : nat
}.

(** [observedRestarts[key]]: the zero value when the key is absent. *)
Definition observed (W : World) (key : string) : Z :=
  default 0 (observedRestarts W !! key).

Definition emit (W : World) (op : SinkOp) : World :=
  mkWorld (observedRestarts W) (sink W ++ [op]) (clk W).

Section Controller.

(** Library behaviour: [pem.Decode] (the first PEM block and the rest, or
    nil), [x509.ParseCertificate], the successive readings of [time.Now()],
    and the order in which [for key, data := range secret.Data] visits the
    map. *)
Context {X509Error : Type}.
Variable pem_Decode : bytes -> option (Block * bytes).
Variable x509_ParseCertificate : bytes -> X509Error + Certificate.
Variable time_Now : nat -> Time.
Variable map_range : gmap string bytes -> list (string * bytes).

(** *** Pod path *)

(** [fmt.Sprintf("%s/%s/%s", pod.Namespace, pod.Name, cs.Name)] *)
Definition containerKey (ns pod cname : string) : string :=
  ns +:+ "/" +:+ pod +:+ "/" +:+ cname.

Definition termination_labels (pod : Pod) (cs : ContainerStatus)
    (t : ContainerStateTerminated) : Labels :=
  [("namespace", pod_Namespace pod); ("pod", pod_Name pod);
   ("container", cs_Name cs); ("reason", Reason t);
   ("exit_code", pretty (ExitCode t))].

(** The body of [for _, cs := range pod.Status.ContainerStatuses]. *)
Definition observeContainer (pod : Pod) (W : World) (cs : ContainerStatus) : World :=
  let key := containerKey (pod_Namespace pod) (pod_Name pod) (cs_Name cs) in
  match (RestartCount cs >? observed W key), LastTerminated cs with
  | true, Some lastState =>
      let finishedAt := inject_Z (Time_Unix (FinishedAt lastState)) in
      let W := emit W (GaugeSet PodLastTerminationInfo
                          (termination_labels pod cs lastState) finishedAt) in
      mkWorld (<[key := RestartCount cs]> (observedRestarts W)) (sink W) (clk W)
  | _, _ => W
  end.

Definition observePod (W : World) (pod : Pod) : World :=
  fold_left (observeContainer pod) (ContainerStatuses pod) W.

(** [reconcilePod]: the new state, the [ctrl.Result] and the error. *)
Definition reconcilePod (cl : Cluster) (W : World) (req : Request)
    : World * Result * option ApiError :=
  match get_pod cl (req_Namespace req) (req_Name req) with
  | inl err =>
      if ignore_not_found_fails err then (W, Result0, Some err)
      else (W, Result0, None)
  | inr pod => (observePod W pod, Result0, None)
  end.

(** *** Certificate path *)

(** [parseCertificateFromPEM] *)
Definition parseCertificateFromPEM (pemData : bytes)
    : CertError X509Error + Certificate :=
  match pem_Decode pemData with
  | None => inl ErrPEMBlock
  | Some (block, _) =>
      match x509_ParseCertificate (block_Bytes block) with
      | inl err => inl (ErrParseCertificate err)
      | inr cert => inr cert
      end
  end.

Definition cert_labels (namespace secretName certType : string) : Labels :=
  [("namespace", namespace); ("secret_name", secretName); ("cert_type", certType)].

(** [expirationTime.Sub(now).Hours() / 24] *)
Definition daysUntilExpiration (expirationTime now : Time) : Q :=
  Duration_Hours (Time_Sub expirationTime now) / inject_Z 24.

(** [checkCertificateExpiration]: the new state and the returned error. *)
Definition checkCertificateExpiration (W : World)
    (namespace secretName certType : string) (certData : bytes)
    : World * option (CertError X509Error) :=
  match parseCertificateFromPEM certData with
  | inl err => (W, Some err)
  | inr cert =>
      let expirationTime := NotAfter cert in
      let now := time_Now (clk W) in
      let W := mkWorld (observedRestarts W) (sink W) (S (clk W)) in
      let days := daysUntilExpiration expirationTime now in
      let W := emit W (GaugeSet CertificateExpirationTime
                         (cert_labels namespace secretName certType)
                         (inject_Z (Time_Unix expirationTime))) in
      let W := emit W (GaugeSet CertificateDaysUntilExpiration
                         (cert_labels namespace secretName certType) days) in
      (W, None)
  end.

(** The allow-list of certificate keys. *)
Definition recognized_key (key : string) : bool :=
  String.eqb key "ca.crt" || String.eqb key "issuer.crt" ||
  String.eqb key "ca.pem" || String.eqb key "issuer.pem" ||
  String.eqb key "crt.pem".

(** The body of [for key, data := range secret.Data]; an error of
    [checkCertificateExpiration] is only logged. *)
Definition checkSecretEntry (req : Request) (W : World) (entry : string * bytes) : World :=
  let '(key, data) := entry in
  if recognized_key key then
    fst (checkCertificateExpiration W (req_Namespace req) (req_Name req) key data)
  else W.

(** [reconcileSecret] *)
Definition reconcileSecret (cl : Cluster) (W : World) (req : Request)
    : World * Result * option ApiError :=
  match get_secret cl (req_Namespace req) (req_Name req) with
  | inl err =>
      if ignore_not_found_fails err then (W, Result0, Some err)
      else
        let ls := [("namespace", req_Namespace req); ("secret_name", req_Name req)] in
        let W := emit W (GaugeDeletePartialMatch CertificateExpirationTime ls) in
        let W := emit W (GaugeDeletePartialMatch CertificateDaysUntilExpiration ls) in
        (W, Result0, None)
  | inr secret =>
      let W := fold_left (checkSecretEntry req) (map_range (Data secret)) W in
      (W, mkResult false Hour, None)
  end.

(** [Reconcile]: the dispatch on the request. *)
Definition is_secret_request (req : Request) : bool :=
  String.eqb (req_Namespace req) "linkerd" &&
  String.eqb (req_Name req) "linkerd-identity-issuer".

Definition Reconcile (cl : Cluster) (W : World) (req : Request)
    : World * Result * option ApiError :=
  if is_secret_request req then reconcileSecret cl W req
  else reconcilePod cl W req.

(** A sequence of reconciliations, each against the cluster of its time. *)
Fixpoint run (W : World) (steps : list (Cluster * Request)) : World :=
  match steps with
  | [] => W
  | (cl, req) :: steps' => run (fst (fst (Reconcile cl W req))) steps'
  end.

End Controller.

(** ** Vocabulary of the statements *)

(** The key of a container status of a pod in [observedRestarts]. *)
Definition pod_key (pod : Pod) (cs : ContainerStatus) : string :=
  containerKey (pod_Namespace pod) (pod_Name pod) (cs_Name cs).

(** The termination-info publication of a container status. *)
Definition termination_op (pod : Pod) (cs : ContainerStatus)
    (t : ContainerStateTerminated) : SinkOp :=
  GaugeSet PodLastTerminationInfo (termination_labels pod cs t)
    (inject_Z (Time_Unix (FinishedAt t))).

(** The [observedRestarts] key named by the labels of a termination-info series. *)
Definition key_of_labels (ls : Labels) : option string :=
  match labels_get "namespace" ls, labels_get "pod" ls, labels_get "container" ls with
  | Some ns, Some p, Some c => Some (containerKey ns p c)
  | _, _, _ => None
  end.

(** The gauge vector an operation addresses. *)
Definition op_family (op : SinkOp) : Family :=
  match op with GaugeSet f _ _ | GaugeDeletePartialMatch f _ => f end.

(** ** Sample inputs *)

Definition world0 : World := mkWorld ∅ [] 0.

Definition req_web0 : Request := mkRequest "default" "web-0".

Definition req_issuer : Request := mkRequest "linkerd" "linkerd-identity-issuer".

Definition oom_kill : ContainerStateTerminated :=
  mkTerminated "OOMKilled" 137 (mkTime 1792000000 0).

Definition app_error : ContainerStateTerminated :=
  mkTerminated "Error" 1 (mkTime 1792010000 0).

(** A pod [default/web-0] whose container [app] has restarted once. *)
Definition pod_web0 (t : ContainerStateTerminated) : Pod :=
  mkPod "default" "web-0" [mkContainerStatus "app" 1 (Some t)].

Definition cluster_with_pod (p : Pod) : Cluster :=
  mkCluster (fun _ _ => inr p) (fun _ _ => inl ErrNotFound).

Definition cluster_with_secret (s : Secret) : Cluster :=
  mkCluster (fun _ _ => inl ErrNotFound) (fun _ _ => inr s).

Definition cluster_empty : Cluster :=
  mkCluster (fun _ _ => inl ErrNotFound) (fun _ _ => inl ErrNotFound).

(** 9999-12-31T23:59:59Z, the RFC 5280 "no well-defined expiration" date,
    and 2026-10-15T00:00:00Z. *)
Definition far_future_expiry : Time := mkTime 253402300799 0.

Definition now_2026 : Time := mkTime 1792022400 0.

(** Stand-ins for [pem.Decode] and [x509.ParseCertificate] to run the
    model: every byte is a block of its own; the block [0x00] is not a
    certificate, any other block is one expiring at [far_future_expiry]. *)
Definition sample_pem_Decode (data : bytes) : option (Block * bytes) :=
  match data with
  | [] => None
  | b :: rest => Some (mkBlock "CERTIFICATE" [b], rest)
  end.

Definition sample_x509 (der : bytes) : unit + Certificate :=
  match der with
  | [Byte.x00] => inl tt
  | _ => inr (mkCertificate far_future_expiry)
  end.

(** The issuer secret with one valid key, one malformed key and one key
    outside the allow-list. *)
Definition sample_secret : Secret :=
  mkSecret "linkerd" "linkerd-identity-issuer"
    (<["crt.pem" := [Byte.x01]]> (<["ca.crt" := [Byte.x00]]>
       (<["tls.key" := [Byte.x02]]> ∅))).

(** ** Secret watch of [SetupWithManager] *)

(** The object metadata an event carries. *)
Record ObjectMeta := mkObjectMeta { om_Namespace : string; om_Name : string }.

(** The events a watch delivers: [event.CreateEvent], [event.UpdateEvent]
    (old and new object), [event.DeleteEvent], [event.GenericEvent]. *)
Inductive WatchEvent :=
| EvCreate (o : ObjectMeta)
| EvUpdate (old new : ObjectMeta)
| EvDelete (o : ObjectMeta)
| EvGeneric (o : ObjectMeta).

(** [builder.WithPredicates(predicate.Funcs{...})] on the secret watch:
    [CreateFunc] and [UpdateFunc] (on [ObjectNew]) pass only the issuer
    secret, [DeleteFunc] returns false, and the nil [GenericFunc] of
    [predicate.Funcs] lets the event through. *)
Definition secret_predicate (e : WatchEvent) : bool :=
  match e with
  | EvCreate o =>
      String.eqb (om_Namespace o) "linkerd" && String.eqb (om_Name o) "linkerd-identity-issuer"
  | EvUpdate _ o =>
      String.eqb (om_Namespace o) "linkerd" && String.eqb (om_Name o) "linkerd-identity-issuer"
  | EvDelete _ => false
  | EvGeneric _ => true
  end.

(** [handler.EnqueueRequestForObject]: the request naming the event's
    object ([ObjectNew] for an update). *)
Definition enqueue_request (e : WatchEvent) : Request :=
  match e with
  | EvCreate o | EvUpdate _ o | EvDelete o | EvGeneric o =>
      mkRequest (om_Namespace o) (om_Name o)
  end.

(** ** Pod path *)

Lemma append_cancel_l (s a b : string) : s +:+ a = s +:+ b -> a = b.
Proof.
  induction s as [|c s IH]; simpl; [done|].
  intros H. injection H. exact IH.
Qed.

Lemma containerKey_inj ns p a b :
  containerKey ns p a = containerKey ns p b -> a = b.
Proof.
  unfold containerKey. intros H.
  apply append_cancel_l, append_cancel_l, append_cancel_l, append_cancel_l in H.
  exact H.
Qed.

Lemma NoDup_map_same {A B} (f : A -> B) (l : list A) x y :
  NoDup (map f l) -> x ∈ l -> y ∈ l -> f x = f y -> x = y.
Proof.
  induction l as [|z l IH]; simpl; intros Hnd Hx Hy Hf.
  - by apply elem_of_nil in Hx.
  - apply NoDup_cons in Hnd as [Hz Hnd].
    apply elem_of_cons in Hx, Hy.
    destruct Hx as [->|Hx], Hy as [->|Hy]; auto.
    + exfalso. apply Hz. rewrite Hf. apply list_elem_of_In, in_map, list_elem_of_In, Hy.
    + exfalso. apply Hz. rewrite <- Hf. apply list_elem_of_In, in_map, list_elem_of_In, Hx.
Qed.

Lemma observeContainer_cases pod W cs :
  (observed W (pod_key pod cs) < RestartCount cs /\
   exists t, LastTerminated cs = Some t /\
   observeContainer pod W cs =
     mkWorld (<[pod_key pod cs := RestartCount cs]> (observedRestarts W))
             (sink W ++ [termination_op pod cs t]) (clk W)) \/
  ((RestartCount cs <= observed W (pod_key pod cs) \/ LastTerminated cs = None) /\
   observeContainer pod W cs = W).
Proof.
  unfold observeContainer, pod_key, termination_op.
  rewrite Z.gtb_ltb.
  destruct (Z.ltb_spec (observed W (containerKey (pod_Namespace pod) (pod_Name pod) (cs_Name cs)))
              (RestartCount cs)) as [Hlt|Hle];
    destruct (LastTerminated cs) as [t|] eqn:Ht.
  - left. split; [exact Hlt|]. exists t. split; reflexivity.
  - right. auto.
  - right. auto.
  - right. auto.
Qed.

Lemma observed_insert_eq (W : World) m k v :
  observedRestarts W = m -> default 0 (<[k := v]> m !! k) = v.
Proof. intros _. by rewrite lookup_insert_eq. Qed.

(** Processing the statuses of a pod with distinct container names: each
    status is judged against the state before the reconciliation. *)
Lemma observe_fold_spec pod : forall (l : list ContainerStatus) W,
  NoDup (map cs_Name l) ->
  let W' := fold_left (observeContainer pod) l W in
  clk W' = clk W /\
  exists new, sink W' = sink W ++ new /\
  (forall op, op ∈ new -> exists cs t, cs ∈ l /\
     observed W (pod_key pod cs) < RestartCount cs /\
     LastTerminated cs = Some t /\ op = termination_op pod cs t) /\
  (forall cs, cs ∈ l ->
     (observed W (pod_key pod cs) < RestartCount cs /\ is_Some (LastTerminated cs) ->
        (forall t, LastTerminated cs = Some t -> termination_op pod cs t ∈ new) /\
        observedRestarts W' !! pod_key pod cs = Some (RestartCount cs)) /\
     (~ (observed W (pod_key pod cs) < RestartCount cs /\ is_Some (LastTerminated cs)) ->
        observedRestarts W' !! pod_key pod cs = observedRestarts W !! pod_key pod cs)) /\
  (forall k, (forall cs, cs ∈ l -> k <> pod_key pod cs) ->
     observedRestarts W' !! k = observedRestarts W !! k).
Proof.
  induction l as [|cs l IH]; intros W Hnd; simpl.
  - split; [done|]. exists []. rewrite app_nil_r.
    split; [done|]. split; [intros op Hop; by apply elem_of_nil in Hop|].
    split; [intros cs Hcs; by apply elem_of_nil in Hcs|]. done.
  - apply NoDup_cons in Hnd as [Hcs Hnd].
    assert (Hkey : forall cs', cs' ∈ l -> pod_key pod cs' <> pod_key pod cs).
    { intros cs' Hin Heq. apply containerKey_inj in Heq. apply Hcs.
      rewrite <- Heq. apply list_elem_of_In, in_map, list_elem_of_In, Hin. }
    set (W1 := observeContainer pod W cs).
    assert (Hobs1 : forall cs', cs' ∈ l ->
              observedRestarts W1 !! pod_key pod cs' = observedRestarts W !! pod_key pod cs').
    { intros cs' Hin. unfold W1.
      destruct (observeContainer_cases pod W cs) as [[_ [t [_ ->]]]|[_ ->]]; [|done].
      simpl. rewrite lookup_insert_ne; [done|]. intros E. by apply (Hkey cs'). }
    destruct (IH W1 Hnd) as (Hclk & new2 & Hsink & Hops & Hcs' & Hother).
    fold W1.
    destruct (observeContainer_cases pod W cs) as [[Hlt [t [Ht HW1]]]|[Hnot HW1]];
      fold W1 in HW1.
    + split; [rewrite Hclk, HW1; done|].
      exists (termination_op pod cs t :: new2). split.
      { rewrite Hsink, HW1. simpl. by rewrite <- app_assoc. }
      split; [|split].
      * intros op Hop. apply elem_of_cons in Hop as [->|Hop].
        { exists cs, t. split; [apply list_elem_of_here|]. auto. }
        destruct (Hops op Hop) as (cs' & t' & Hin & Hlt' & Ht' & ->).
        exists cs', t'. split; [by apply list_elem_of_further|].
        unfold observed in *. rewrite <- Hobs1 by done. auto.
      * intros cs' Hin. apply elem_of_cons in Hin as [->|Hin].
        { split.
          - intros _. split.
            + intros t' Ht'. rewrite Ht in Ht'. injection Ht' as <-.
              apply list_elem_of_here.
            + rewrite Hother.
              * rewrite HW1. simpl. by rewrite lookup_insert_eq.
              * intros cs' Hin' E. by apply (Hkey cs').
          - intros Hn. exfalso. apply Hn. split; [exact Hlt|]. by rewrite Ht. }
        destruct (Hcs' cs' Hin) as [Hnew Hold].
        unfold observed in *. rewrite <- (Hobs1 cs' Hin) in *.
        split.
        { intros Hc. destruct (Hnew Hc) as [Hin2 Heq]. split; [|exact Heq].
          intros t' Ht'. apply list_elem_of_further. auto. }
        intros Hc. by rewrite (Hold Hc).
      * intros k Hk. rewrite Hother.
        { rewrite HW1. simpl. rewrite lookup_insert_ne; [done|].
          intros E. apply (Hk cs); [apply list_elem_of_here|done]. }
        intros cs' Hin. apply Hk. by apply list_elem_of_further.
    + split; [rewrite Hclk, HW1; done|].
      exists new2. split; [rewrite Hsink, HW1; done|].
      assert (HWeq : W1 = W) by exact HW1.
      rewrite HWeq in Hops, Hcs', Hother |- *.
      split; [|split].
      * intros op Hop. destruct (Hops op Hop) as (cs' & t' & Hin & Hrest).
        exists cs', t'. split; [by apply list_elem_of_further|exact Hrest].
      * intros cs' Hin. apply elem_of_cons in Hin as [->|Hin].
        { split.
          - intros [Hlt [t Ht]]. exfalso.
            destruct Hnot as [Hle|Hn]; [lia|congruence].
          - intros _. apply Hother. intros cs' Hin' E. by apply (Hkey cs'). }
        exact (Hcs' cs' Hin).
      * intros k Hk. apply Hother. intros cs' Hin. apply Hk.
        by apply list_elem_of_further.
Qed.

Lemma observeContainer_mono pod W cs k v :
  observedRestarts W !! k = Some v ->
  exists v', observedRestarts (observeContainer pod W cs) !! k = Some v' /\ v <= v'.
Proof.
  intros Hk.
  destruct (observeContainer_cases pod W cs) as [[Hlt [t [_ ->]]]|[_ ->]];
    [|exists v; split; [done|lia]].
  simpl. destruct (decide (k = pod_key pod cs)) as [->|Hne].
  - rewrite lookup_insert_eq. exists (RestartCount cs). split; [done|].
    unfold observed in Hlt. rewrite Hk in Hlt. simpl in Hlt. lia.
  - rewrite lookup_insert_ne by congruence. exists v. split; [done|lia].
Qed.

Lemma observed_mono_of (m m' : gmap string Z) k :
  (forall v, m !! k = Some v -> exists v', m' !! k = Some v' /\ v <= v') ->
  (m !! k = None -> forall v', m' !! k = Some v' -> 0 <= v') ->
  default 0 (m !! k) <= default 0 (m' !! k).
Proof.
  intros H1 H2. destruct (m !! k) as [v|] eqn:E.
  - destruct (H1 v eq_refl) as (v' & -> & Hle). done.
  - destruct (m' !! k) as [v'|] eqn:E'; simpl; [|lia]. by apply (H2 eq_refl).
Qed.

Lemma observeContainer_observed_mono pod W cs k :
  observed W k <= observed (observeContainer pod W cs) k.
Proof.
  unfold observed. apply observed_mono_of.
  - intros v Hv. by apply observeContainer_mono.
  - intros Hk v'.
    destruct (observeContainer_cases pod W cs) as [[Hlt [t [_ ->]]]|[_ ->]];
      [|congruence].
    simpl. destruct (decide (k = pod_key pod cs)) as [->|Hne].
    + rewrite lookup_insert_eq. intros [= <-].
      unfold observed in Hlt. rewrite Hk in Hlt. simpl in Hlt. lia.
    + rewrite lookup_insert_ne by congruence. congruence.
Qed.

Lemma observe_fold_observed_mono pod : forall l W k,
  observed W k <= observed (fold_left (observeContainer pod) l W) k.
Proof.
  induction l as [|cs l IH]; intros W k; simpl; [lia|].
  etransitivity; [apply (observeContainer_observed_mono pod W cs k)|apply IH].
Qed.

(** After a pass over the statuses, none of them is new any more. *)
Lemma observe_fold_settles pod : forall l W cs, cs ∈ l ->
  RestartCount cs <= observed (fold_left (observeContainer pod) l W) (pod_key pod cs) \/
  LastTerminated cs = None.
Proof.
  induction l as [|cs0 l IH]; intros W cs Hin; simpl.
  - by apply elem_of_nil in Hin.
  - apply elem_of_cons in Hin as [->|Hin]; [|by apply IH].
    destruct (observeContainer_cases pod W cs0) as [[Hlt [t [_ HW1]]]|[Hnot HW1]].
    + left. etransitivity; [|apply observe_fold_observed_mono].
      rewrite HW1. unfold observed. simpl. rewrite lookup_insert_eq. simpl. lia.
    + rewrite HW1. destruct Hnot as [Hle|Hn]; [left|right; exact Hn].
      etransitivity; [exact Hle|apply observe_fold_observed_mono].
Qed.

Lemma observe_fold_settled_id pod : forall l W,
  (forall cs, cs ∈ l ->
     RestartCount cs <= observed W (pod_key pod cs) \/ LastTerminated cs = None) ->
  fold_left (observeContainer pod) l W = W.
Proof.
  induction l as [|cs l IH]; intros W Hset; simpl; [done|].
  destruct (observeContainer_cases pod W cs) as [[Hlt [t [Ht _]]]|[_ ->]].
  - exfalso. destruct (Hset cs (list_elem_of_here cs l)) as [Hle|Hn]; [lia|congruence].
  - apply IH. intros cs' Hin. apply Hset. by apply list_elem_of_further.
Qed.

(** Any pass over the statuses: counters only grow, and a key enters the
    map only together with a termination-info publication for it. *)
Lemma observe_fold_general pod : forall (l : list ContainerStatus) W,
  let W' := fold_left (observeContainer pod) l W in
  clk W' = clk W /\
  exists new, sink W' = sink W ++ new /\
  (forall k v, observedRestarts W !! k = Some v ->
     exists v', observedRestarts W' !! k = Some v' /\ v <= v') /\
  (forall k v', observedRestarts W !! k = None -> observedRestarts W' !! k = Some v' ->
     exists cs t, termination_op pod cs t ∈ new /\ pod_key pod cs = k).
Proof.
  induction l as [|cs l IH]; intros W; simpl.
  - split; [done|]. exists []. rewrite app_nil_r. split; [done|].
    split; [intros k v Hk; exists v; split; [done|lia]|congruence].
  - set (W1 := observeContainer pod W cs).
    destruct (IH W1) as (Hclk & new2 & Hsink & Hmono & Hfresh).
    destruct (observeContainer_cases pod W cs) as [[Hlt [t [Ht HW1]]]|[Hnot HW1]];
      fold W1 in HW1.
    + split; [rewrite Hclk, HW1; done|].
      exists (termination_op pod cs t :: new2). split.
      { rewrite Hsink, HW1. simpl. by rewrite <- app_assoc. }
      split.
      * intros k v Hk. destruct (observeContainer_mono pod W cs k v Hk) as (v1 & H1 & Hle1).
        fold W1 in H1. destruct (Hmono k v1 H1) as (v' & H' & Hle').
        exists v'. split; [done|lia].
      * intros k v' Hk Hk'. destruct (observedRestarts W1 !! k) as [v1|] eqn:E1.
        { exists cs, t. split; [apply list_elem_of_here|].
          rewrite HW1 in E1. simpl in E1.
          destruct (decide (k = pod_key pod cs)) as [->|Hne]; [done|].
          rewrite lookup_insert_ne in E1 by congruence. congruence. }
        destruct (Hfresh k v' E1 Hk') as (cs' & t' & Hin & Hkey).
        exists cs', t'. split; [by apply list_elem_of_further|done].
    + assert (HWeq : W1 = W) by exact HW1.
      rewrite HWeq in Hclk, Hsink, Hmono, Hfresh |- *.
      split; [done|]. exists new2. auto.
Qed.

Lemma checkCertificateExpiration_world {E : Type} pem x509 now (W : World)
    ns sn ct data :
  let W' := fst (@checkCertificateExpiration E pem x509 now W ns sn ct data) in
  observedRestarts W' = observedRestarts W /\ exists new, sink W' = sink W ++ new.
Proof.
  unfold checkCertificateExpiration.
  destruct (parseCertificateFromPEM pem x509 data) as [e|cert]; simpl.
  - split; [done|]. exists []. by rewrite app_nil_r.
  - split; [done|]. eexists. by rewrite <- app_assoc.
Qed.

Lemma secret_fold_world {E : Type} pem x509 now req : forall l (W : World),
  let W' := fold_left (@checkSecretEntry E pem x509 now req) l W in
  observedRestarts W' = observedRestarts W /\ exists new, sink W' = sink W ++ new.
Proof.
  induction l as [|[k d] l IH]; intros W; simpl.
  - split; [done|]. exists []. by rewrite app_nil_r.
  - set (W1 := if recognized_key k
               then fst (checkCertificateExpiration pem x509 now W
                           (req_Namespace req) (req_Name req) k d) else W).
    assert (H1 : observedRestarts W1 = observedRestarts W /\
                 exists new, sink W1 = sink W ++ new).
    { unfold W1. destruct (recognized_key k).
      - apply checkCertificateExpiration_world.
      - split; [done|]. exists []. by rewrite app_nil_r. }
    destruct H1 as [Ho1 [n1 Hs1]]. destruct (IH W1) as [Ho2 [n2 Hs2]].
    split; [congruence|]. exists (n1 ++ n2). rewrite Hs2, Hs1. by rewrite app_assoc.
Qed.

Lemma reconcileSecret_world {E : Type} pem x509 now range cl (W : World) req :
  let W' := fst (fst (@reconcileSecret E pem x509 now range cl W req)) in
  observedRestarts W' = observedRestarts W /\ exists new, sink W' = sink W ++ new.
Proof.
  unfold reconcileSecret.
  destruct (get_secret cl (req_Namespace req) (req_Name req)) as [err|secret].
  - destruct (ignore_not_found_fails err); simpl.
    + split; [done|]. exists []. by rewrite app_nil_r.
    + split; [done|]. eexists. by rewrite <- !app_assoc.
  - apply secret_fold_world.
Qed.

Lemma key_of_termination_labels pod cs t :
  key_of_labels (termination_labels pod cs t) = Some (pod_key pod cs).
Proof. reflexivity. Qed.

Lemma reconcile_step_world {E : Type} pem x509 now range cl (W : World) req :
  let W' := fst (fst (@Reconcile E pem x509 now range cl W req)) in
  exists new, sink W' = sink W ++ new /\
  (forall k v, observedRestarts W !! k = Some v ->
     exists v', observedRestarts W' !! k = Some v' /\ v <= v') /\
  (forall k v', observedRestarts W !! k = None -> observedRestarts W' !! k = Some v' ->
     exists ls x, GaugeSet PodLastTerminationInfo ls x ∈ new /\ key_of_labels ls = Some k).
Proof.
  unfold Reconcile. destruct (is_secret_request req).
  - destruct (reconcileSecret_world pem x509 now range cl W req) as [Ho [new Hs]].
    exists new. split; [exact Hs|]. rewrite Ho.
    split; [intros k v Hk; exists v; split; [done|lia]|congruence].
  - unfold reconcilePod.
    destruct (get_pod cl (req_Namespace req) (req_Name req)) as [err|pod].
    + assert (Hr : fst (fst (if ignore_not_found_fails err then (W, Result0, Some err)
                             else (W, Result0, None))) = W)
        by (destruct (ignore_not_found_fails err); done).
      simpl. rewrite Hr. exists []. rewrite app_nil_r. split; [done|].
      split; [intros k v Hk; exists v; split; [done|lia]|congruence].
    + simpl. destruct (observe_fold_general pod (ContainerStatuses pod) W)
        as (_ & new & Hs & Hmono & Hfresh).
      exists new. split; [exact Hs|]. split; [exact Hmono|].
      intros k v' Hk Hk'. destruct (Hfresh k v' Hk Hk') as (cs & t & Hin & Hkey).
      exists (termination_labels pod cs t), (inject_Z (Time_Unix (FinishedAt t))).
      split; [exact Hin|]. rewrite key_of_termination_labels. by rewrite Hkey.
Qed.

(** ** Claims on the pod path *)

(** C1: on the pod path, when the pod is found (with distinct container
    names, as Kubernetes guarantees), the termination-info metric of a
    container status is published exactly when its restart count exceeds
    the counter stored for ["namespace/pod/container"] (the zero value when
    unseen) and a last-termination snapshot is present; exactly then the
    stored counter becomes the restart count.  An unseen identity with a
    count of at least 1 and a snapshot is reported, and reconciling the same
    pod again publishes nothing and changes nothing. *)
Theorem reconcilePod_restart_dedup (cl : Cluster) (W : World) (req : Request) (pod : Pod)
    (Hget : get_pod cl (req_Namespace req) (req_Name req) = inr pod)
    (Hnd : NoDup (map cs_Name (ContainerStatuses pod))) :
  let W' := fst (fst (reconcilePod cl W req)) in
  (exists new, sink W' = sink W ++ new /\
   forall cs, cs ∈ ContainerStatuses pod ->
     ((exists ls v, GaugeSet PodLastTerminationInfo ls v ∈ new /\
                    labels_get "container" ls = Some (cs_Name cs)) <->
      (observed W (pod_key pod cs) < RestartCount cs /\ is_Some (LastTerminated cs))) /\
     (forall t, LastTerminated cs = Some t ->
        observed W (pod_key pod cs) < RestartCount cs -> termination_op pod cs t ∈ new) /\
     (observed W (pod_key pod cs) < RestartCount cs /\ is_Some (LastTerminated cs) ->
        observedRestarts W' !! pod_key pod cs = Some (RestartCount cs)) /\
     (~ (observed W (pod_key pod cs) < RestartCount cs /\ is_Some (LastTerminated cs)) ->
        observedRestarts W' !! pod_key pod cs = observedRestarts W !! pod_key pod cs) /\
     (observedRestarts W !! pod_key pod cs = None -> 1 <= RestartCount cs ->
        is_Some (LastTerminated cs) ->
        exists ls v, GaugeSet PodLastTerminationInfo ls v ∈ new /\
                     labels_get "container" ls = Some (cs_Name cs))) /\
  fst (fst (reconcilePod cl W' req)) = W'.
Proof.
  unfold reconcilePod. rewrite Hget. simpl.
  destruct (observe_fold_spec pod (ContainerStatuses pod) W Hnd)
    as (_ & new & Hsink & Hops & Hcs & _).
  split.
  - exists new. split; [exact Hsink|].
    intros cs Hin. destruct (Hcs cs Hin) as [Hnew Hold].
    assert (Hiff : (exists ls v, GaugeSet PodLastTerminationInfo ls v ∈ new /\
                                 labels_get "container" ls = Some (cs_Name cs)) <->
                   (observed W (pod_key pod cs) < RestartCount cs /\
                    is_Some (LastTerminated cs))).
    { split.
      - intros (ls & v & Hop & Hc).
        destruct (Hops _ Hop) as (cs' & t' & Hin' & Hlt' & Ht' & Heq).
        unfold termination_op in Heq. injection Heq as Hls _.
        subst ls. simpl in Hc. injection Hc as Hname.
        assert (cs' = cs) as -> by (apply (NoDup_map_same cs_Name _ _ _ Hnd); done).
        split; [exact Hlt'|]. by rewrite Ht'.
      - intros Hc. destruct (Hnew Hc) as [Hpub _].
        destruct Hc as [_ [t Ht]].
        exists (termination_labels pod cs t), (inject_Z (Time_Unix (FinishedAt t))).
        split; [by apply Hpub|reflexivity]. }
    split; [exact Hiff|]. split; [|split; [|split]].
    + intros t Ht Hlt. apply (proj1 (Hnew (conj Hlt (ex_intro _ t Ht)))). exact Ht.
    + intros Hc. exact (proj2 (Hnew Hc)).
    + exact Hold.
    + intros Hnone H1 Hsome. apply Hiff. split; [|exact Hsome].
      unfold observed. rewrite Hnone. simpl. lia.
  - apply observe_fold_settled_id. apply observe_fold_settles.
Qed.

(** C10: every pod-path reconciliation returns [ctrl.Result{}]: with the
    fetch error when the fetch fails for a reason other than not-found, and
    with no error otherwise (pod deleted, or pod found with any statuses).
    A reconciliation dispatched to anything but the certificate secret
    therefore never requests a requeue. *)
Theorem reconcilePod_result (cl : Cluster) (W : World) (req : Request) :
  snd (fst (reconcilePod cl W req)) = Result0 /\
  snd (reconcilePod cl W req) =
    match get_pod cl (req_Namespace req) (req_Name req) with
    | inl ErrNotFound => None
    | inl err => Some err
    | inr _ => None
    end /\
  (forall (E : Type) pem x509 now range,
     is_secret_request req = true \/
     snd (fst (@Reconcile E pem x509 now range cl W req)) = Result0).
Proof.
  assert (Hpod : snd (fst (reconcilePod cl W req)) = Result0).
  { unfold reconcilePod.
    destruct (get_pod cl (req_Namespace req) (req_Name req)) as [[|m]|pod]; done. }
  split; [exact Hpod|]. split.
  - unfold reconcilePod.
    destruct (get_pod cl (req_Namespace req) (req_Name req)) as [[|m]|pod]; done.
  - intros E pem x509 now range. unfold Reconcile.
    destruct (is_secret_request req); [left; done|right; exact Hpod].
Qed.

(** C9: across any sequence of reconciliations (pod or certificate path),
    a counter stored in [observedRestarts] is never replaced by a smaller
    one, and a key absent at the start is present at the end only if a
    termination-info metric naming it was published in between. *)
Theorem run_observedRestarts_monotone {E : Type} pem x509 now range :
  forall (steps : list (Cluster * Request)) (W : World),
  let W' := @run E pem x509 now range W steps in
  (forall k v, observedRestarts W !! k = Some v ->
     exists v', observedRestarts W' !! k = Some v' /\ v <= v') /\
  exists new, sink W' = sink W ++ new /\
  (forall k v', observedRestarts W !! k = None -> observedRestarts W' !! k = Some v' ->
     exists ls x, GaugeSet PodLastTerminationInfo ls x ∈ new /\ key_of_labels ls = Some k).
Proof.
  induction steps as [|[cl req] steps IH]; intros W; simpl.
  - split; [intros k v Hk; exists v; split; [done|lia]|].
    exists []. rewrite app_nil_r. split; [done|congruence].
  - set (W1 := fst (fst (Reconcile pem x509 now range cl W req))).
    destruct (reconcile_step_world pem x509 now range cl W req)
      as (n1 & Hs1 & Hm1 & Hf1). fold W1 in Hs1, Hm1, Hf1.
    destruct (IH W1) as (Hm2 & n2 & Hs2 & Hf2).
    split.
    + intros k v Hk. destruct (Hm1 k v Hk) as (v1 & H1 & Hle1).
      destruct (Hm2 k v1 H1) as (v' & H' & Hle'). exists v'. split; [done|lia].
    + exists (n1 ++ n2). split; [rewrite Hs2, Hs1; by rewrite app_assoc|].
      intros k v' Hk Hk'. destruct (observedRestarts W1 !! k) as [v1|] eqn:E1.
      * destruct (Hf1 k v1 Hk E1) as (ls & x & Hin & Hkey).
        exists ls, x. split; [apply elem_of_app; left; exact Hin|exact Hkey].
      * destruct (Hf2 k v' E1 Hk') as (ls & x & Hin & Hkey).
        exists ls, x. split; [apply elem_of_app; right; exact Hin|exact Hkey].
Qed.

(** ** Certificate path *)

Lemma checkCertificateExpiration_ok {E : Type} pem x509 now (W : World)
    ns sn ct data cert :
  @parseCertificateFromPEM E pem x509 data = inr cert ->
  checkCertificateExpiration pem x509 now W ns sn ct data =
    (mkWorld (observedRestarts W)
       (sink W ++ [GaugeSet CertificateExpirationTime (cert_labels ns sn ct)
                     (inject_Z (Time_Unix (NotAfter cert)));
                   GaugeSet CertificateDaysUntilExpiration (cert_labels ns sn ct)
                     (daysUntilExpiration (NotAfter cert) (now (clk W)))])
       (S (clk W)), None).
Proof.
  intros Hp. unfold checkCertificateExpiration. rewrite Hp. simpl.
  unfold emit; simpl. by rewrite <- app_assoc.
Qed.

Lemma checkCertificateExpiration_err {E : Type} pem x509 now (W : World)
    ns sn ct data err :
  @parseCertificateFromPEM E pem x509 data = inl err ->
  checkCertificateExpiration pem x509 now W ns sn ct data = (W, Some err).
Proof. intros Hp. unfold checkCertificateExpiration. by rewrite Hp. Qed.

(** The loop over the secret's entries: what it publishes, entry by entry. *)
Lemma secret_fold_spec {E : Type} pem x509 now req : forall l (W : World),
  let W' := fold_left (@checkSecretEntry E pem x509 now req) l W in
  exists new, sink W' = sink W ++ new /\
  (forall op, op ∈ new -> exists k d cert f v, (k, d) ∈ l /\ recognized_key k = true /\
     parseCertificateFromPEM pem x509 d = inr cert /\
     op = GaugeSet f (cert_labels (req_Namespace req) (req_Name req) k) v) /\
  (forall k d cert, (k, d) ∈ l -> recognized_key k = true ->
     parseCertificateFromPEM pem x509 d = inr cert ->
     exists t,
       GaugeSet CertificateExpirationTime (cert_labels (req_Namespace req) (req_Name req) k)
         (inject_Z (Time_Unix (NotAfter cert))) ∈ new /\
       GaugeSet CertificateDaysUntilExpiration (cert_labels (req_Namespace req) (req_Name req) k)
         (daysUntilExpiration (NotAfter cert) t) ∈ new).
Proof.
  induction l as [|[k d] l IH]; intros W; simpl.
  - exists []. rewrite app_nil_r. split; [done|].
    split; [intros op Hop; by apply elem_of_nil in Hop|].
    intros k d cert Hin. by apply elem_of_nil in Hin.
  - set (W1 := if recognized_key k
               then fst (checkCertificateExpiration pem x509 now W
                           (req_Namespace req) (req_Name req) k d) else W).
    destruct (IH W1) as (n2 & Hs2 & Hops2 & Hpub2).
    assert (Hmem : forall x (l1 l2 : list SinkOp), x ∈ l1 -> x ∈ l1 ++ l2)
      by (intros; apply elem_of_app; by left).
    assert (Hmem' : forall x (l1 l2 : list SinkOp), x ∈ l2 -> x ∈ l1 ++ l2)
      by (intros; apply elem_of_app; by right).
    destruct (recognized_key k) eqn:Hk;
      [destruct (parseCertificateFromPEM pem x509 d) as [err|cert] eqn:Hp|].
    + unfold W1 in Hs2 |- *. rewrite (checkCertificateExpiration_err _ _ _ _ _ _ _ _ err Hp) in Hs2 |- *.
      simpl in Hs2 |- *. exists n2. split; [exact Hs2|]. split.
      * intros op Hop. destruct (Hops2 op Hop) as (k' & d' & c' & f & v & Hin & Hr).
        exists k', d', c', f, v. split; [by apply list_elem_of_further|exact Hr].
      * intros k' d' c' Hin Hr Hp'. apply elem_of_cons in Hin as [Heq|Hin].
        { injection Heq as -> ->. congruence. }
        by apply (Hpub2 k' d' c').
    + unfold W1 in Hs2 |- *. rewrite (checkCertificateExpiration_ok _ _ _ _ _ _ _ _ cert Hp) in Hs2 |- *.
      simpl in Hs2 |- *.
      eexists. split; [rewrite Hs2; by rewrite <- app_assoc|]. split.
      * intros op Hop. apply elem_of_app in Hop as [Hop|Hop].
        { apply elem_of_cons in Hop as [->|Hop];
            [|apply elem_of_cons in Hop as [->|Hop]; [|by apply elem_of_nil in Hop]];
            eexists k, d, cert, _, _; (split; [apply list_elem_of_here|]); auto. }
        destruct (Hops2 op Hop) as (k' & d' & c' & f & v & Hin & Hr).
        exists k', d', c', f, v. split; [by apply list_elem_of_further|exact Hr].
      * intros k' d' c' Hin Hr Hp'. apply elem_of_cons in Hin as [Heq|Hin].
        { injection Heq as -> ->. rewrite Hp in Hp'. injection Hp' as <-.
          exists (now (clk W)). split; apply Hmem; [apply list_elem_of_here|].
          apply list_elem_of_further, list_elem_of_here. }
        destruct (Hpub2 k' d' c' Hin Hr Hp') as (t & H1 & H2).
        exists t. split; by apply Hmem'.
    + unfold W1 in Hs2 |- *. exists n2. split; [exact Hs2|]. split.
      * intros op Hop. destruct (Hops2 op Hop) as (k' & d' & c' & f & v & Hin & Hr).
        exists k', d', c', f, v. split; [by apply list_elem_of_further|exact Hr].
      * intros k' d' c' Hin Hr Hp'. apply elem_of_cons in Hin as [Heq|Hin].
        { injection Heq as -> ->. congruence. }
        by apply (Hpub2 k' d' c').
Qed.

Lemma gauge_state_app f g0 l1 l2 :
  gauge_state f g0 (l1 ++ l2) = fold_left (apply_op f) l2 (gauge_state f g0 l1).
Proof. unfold gauge_state. apply fold_left_app. Qed.

(** Operations that set other series leave a series untouched. *)
Lemma fold_apply_op_other f lv : forall (l : list SinkOp) (g : Series),
  (forall op, op ∈ l -> exists f' ls v, op = GaugeSet f' ls v /\ label_values f ls <> Some lv) ->
  fold_left (apply_op f) l g !! lv = g !! lv.
Proof.
  induction l as [|op l IH]; intros g Hl; simpl; [done|].
  rewrite IH by (intros op' Hop'; apply Hl; by apply list_elem_of_further).
  destruct (Hl op (list_elem_of_here op l)) as (f' & ls & v & -> & Hne). unfold apply_op.
  destruct (decide (f = f')); [|done].
  destruct (label_values f ls) as [lv'|] eqn:E; [|done].
  rewrite lookup_insert_ne; [done|]. intros ->. congruence.
Qed.

Lemma label_values_cert_labels f a b c :
  label_values f (cert_labels a b c) = None \/
  label_values f (cert_labels a b c) = Some [a; b; c].
Proof. destruct f; [left|right|right]; reflexivity. Qed.

Lemma partial_match_secret f ns sn (lv : list string) :
  f = CertificateExpirationTime \/ f = CertificateDaysUntilExpiration ->
  partial_match f [("namespace", ns); ("secret_name", sn)] lv =
    bool_decide (take 2 lv = [ns; sn]).
Proof.
  intros Hf. assert (Hn : label_names f = ["namespace"; "secret_name"; "cert_type"])
    by (destruct Hf as [->| ->]; reflexivity).
  unfold partial_match. rewrite Hn.
  destruct lv as [|a [|b rest]]; simpl.
  - done.
  - rewrite andb_false_r. symmetry. apply bool_decide_eq_false. congruence.
  - destruct rest; simpl;
      repeat case_bool_decide; simpl; try done; congruence.
Qed.

(** C4: in a reconciliation of a found secret, every recognized key whose
    certificate parses gets both metrics published; a key whose
    certificate fails to parse gets no publication at all, so the series of
    that key in any gauge keep their prior values; and the reconciliation
    returns no error (whatever the order in which the map is ranged). *)
Theorem reconcileSecret_key_failure_isolated {E : Type} pem x509 now range
    (cl : Cluster) (W : World) (req : Request) (secret : Secret)
    (Hrange : forall d, range d ≡ₚ map_to_list d)
    (Hget : get_secret cl (req_Namespace req) (req_Name req) = inr secret) :
  let r := @reconcileSecret E pem x509 now range cl W req in
  let W' := fst (fst r) in
  snd r = None /\
  exists new, sink W' = sink W ++ new /\
  forall key data, Data secret !! key = Some data -> recognized_key key = true ->
    (forall cert, parseCertificateFromPEM pem x509 data = inr cert ->
       exists t,
         GaugeSet CertificateExpirationTime (cert_labels (req_Namespace req) (req_Name req) key)
           (inject_Z (Time_Unix (NotAfter cert))) ∈ new /\
         GaugeSet CertificateDaysUntilExpiration (cert_labels (req_Namespace req) (req_Name req) key)
           (daysUntilExpiration (NotAfter cert) t) ∈ new) /\
    (forall err, parseCertificateFromPEM pem x509 data = inl err ->
       (forall op, op ∈ new -> exists f ls v, op = GaugeSet f ls v /\
                                labels_get "cert_type" ls <> Some key) /\
       (forall f g0, gauge_state f g0 (sink W') !! [req_Namespace req; req_Name req; key] =
                     gauge_state f g0 (sink W) !! [req_Namespace req; req_Name req; key])).
Proof.
  unfold reconcileSecret. rewrite Hget. simpl. split; [done|].
  destruct (secret_fold_spec pem x509 now req (range (Data secret)) W)
    as (new & Hs & Hops & Hpub).
  exists new. split; [exact Hs|]. intros key data Hd Hk.
  assert (Hin : (key, data) ∈ range (Data secret)).
  { rewrite (Hrange (Data secret)). by apply elem_of_map_to_list. }
  assert (Hops' : forall op, op ∈ new -> forall err,
            parseCertificateFromPEM pem x509 data = inl err ->
            exists f k' v, op = GaugeSet f (cert_labels (req_Namespace req) (req_Name req) k') v
                           /\ k' <> key).
  { intros op Hop err Herr.
    destruct (Hops op Hop) as (k' & d' & c' & f & v & Hin' & _ & Hp' & ->).
    exists f, k', v. split; [done|]. intros ->.
    rewrite (Hrange (Data secret)) in Hin'. apply elem_of_map_to_list in Hin'.
    rewrite Hd in Hin'. injection Hin' as <-. congruence. }
  split.
  - intros cert Hc. exact (Hpub key data cert Hin Hk Hc).
  - intros err Herr. split.
    + intros op Hop. destruct (Hops' op Hop err Herr) as (f & k' & v & -> & Hne).
      exists f, (cert_labels (req_Namespace req) (req_Name req) k'), v.
      split; [done|]. simpl. congruence.
    + intros f g0. rewrite Hs, gauge_state_app. apply fold_apply_op_other.
      intros op Hop. destruct (Hops' op Hop err Herr) as (f' & k' & v & -> & Hne).
      exists f', (cert_labels (req_Namespace req) (req_Name req) k'), v. split; [done|].
      destruct (label_values_cert_labels f (req_Namespace req) (req_Name req) k') as [->| ->];
        congruence.
Qed.

Lemma apply_op_delete_same (f : Family) (g : Series) (ls : Labels) :
  apply_op f g (GaugeDeletePartialMatch f ls) =
    filter (fun '(lv, _) => partial_match f ls lv = false) g.
Proof. unfold apply_op. by rewrite decide_True. Qed.

Lemma apply_op_delete_other (f f' : Family) (g : Series) (ls : Labels) :
  f <> f' -> apply_op f g (GaugeDeletePartialMatch f' ls) = g.
Proof. intros Hne. unfold apply_op. by rewrite decide_False. Qed.

(** C5: when the fetch of the watched secret reports "not found", the
    reconciliation returns no error, and afterwards both certificate gauges
    hold no series labelled with the request's namespace and secret name,
    every other series keeping its value. *)
Theorem reconcileSecret_not_found_cleanup {E : Type} pem x509 now range
    (cl : Cluster) (W : World) (req : Request)
    (Hnf : get_secret cl (req_Namespace req) (req_Name req) = inl ErrNotFound) :
  let r := @reconcileSecret E pem x509 now range cl W req in
  snd r = None /\
  forall f g0 (lv : list string),
    f = CertificateExpirationTime \/ f = CertificateDaysUntilExpiration ->
    gauge_state f g0 (sink (fst (fst r))) !! lv =
      if bool_decide (take 2 lv = [req_Namespace req; req_Name req]) then None
      else gauge_state f g0 (sink W) !! lv.
Proof.
  unfold reconcileSecret. rewrite Hnf. simpl. split; [done|].
  intros f g0 lv Hf. rewrite <- app_assoc, gauge_state_app. cbn [fold_left app].
  set (g := gauge_state f g0 (sink W)).
  set (ls := [("namespace", req_Namespace req); ("secret_name", req_Name req)]).
  assert (Hlk : filter (fun '(lv', _) => partial_match f ls lv' = false) g !! lv =
                if bool_decide (take 2 lv = [req_Namespace req; req_Name req]) then None
                else g !! lv).
  { pose proof (partial_match_secret f (req_Namespace req) (req_Name req) lv Hf) as Hpm.
    fold ls in Hpm.
    destruct (bool_decide (take 2 lv = [req_Namespace req; req_Name req])).
    - apply map_lookup_filter_None. right. intros x _. by rewrite Hpm.
    - destruct (g !! lv) as [x|] eqn:Eg.
      + apply map_lookup_filter_Some. split; [exact Eg|]. exact Hpm.
      + apply map_lookup_filter_None. by left. }
  destruct Hf as [-> | ->].
  - rewrite apply_op_delete_same. rewrite apply_op_delete_other; [exact Hlk|discriminate].
  - rewrite (apply_op_delete_other _ CertificateExpirationTime); [|discriminate].
    rewrite apply_op_delete_same. exact Hlk.
Qed.

(** The "not found" branch of the certificate path, gauge by gauge. *)
Lemma reconcileSecret_not_found_gauges {E : Type} pem x509 now range
    (cl : Cluster) (W : World) (req : Request) :
  get_secret cl (req_Namespace req) (req_Name req) = inl ErrNotFound ->
  forall f g0 (lv : list string),
    f = CertificateExpirationTime \/ f = CertificateDaysUntilExpiration ->
    gauge_state f g0 (sink (fst (fst (@reconcileSecret E pem x509 now range cl W req)))) !! lv =
      if bool_decide (take 2 lv = [req_Namespace req; req_Name req]) then None
      else gauge_state f g0 (sink W) !! lv.
Proof.
  intros Hnf f g0 lv Hf. unfold reconcileSecret. rewrite Hnf. simpl.
  rewrite <- app_assoc, gauge_state_app. cbn [fold_left app].
  set (g := gauge_state f g0 (sink W)).
  set (ls := [("namespace", req_Namespace req); ("secret_name", req_Name req)]).
  assert (Hlk : filter (fun '(lv', _) => partial_match f ls lv' = false) g !! lv =
                if bool_decide (take 2 lv = [req_Namespace req; req_Name req]) then None
                else g !! lv).
  { pose proof (partial_match_secret f (req_Namespace req) (req_Name req) lv Hf) as Hpm.
    fold ls in Hpm.
    destruct (bool_decide (take 2 lv = [req_Namespace req; req_Name req])).
    - apply map_lookup_filter_None. right. intros x _. by rewrite Hpm.
    - destruct (g !! lv) as [x|] eqn:Eg.
      + apply map_lookup_filter_Some. split; [exact Eg|]. exact Hpm.
      + apply map_lookup_filter_None. by left. }
  destruct Hf as [-> | ->].
  - rewrite apply_op_delete_same. rewrite apply_op_delete_other; [exact Hlk|discriminate].
  - rewrite (apply_op_delete_other _ CertificateExpirationTime); [|discriminate].
    rewrite apply_op_delete_same. exact Hlk.
Qed.

(** C6 (as amended): the certificate path schedules the next run one hour
    later, with no error, whenever the secret is found, whatever the
    outcome of the individual keys; when the secret is not found it cleans
    up the metrics (both certificate gauges lose exactly the series labelled
    with the request's namespace and secret name, every other series
    keeping its value) and returns [ctrl.Result{}] and no error; on any
    other fetch failure it returns [ctrl.Result{}] and that error. *)
Theorem reconcileSecret_result {E : Type} pem x509 now range
    (cl : Cluster) (W : World) (req : Request) :
  snd (@reconcileSecret E pem x509 now range cl W req) =
    match get_secret cl (req_Namespace req) (req_Name req) with
    | inl ErrNotFound => None
    | inl err => Some err
    | inr _ => None
    end /\
  snd (fst (@reconcileSecret E pem x509 now range cl W req)) =
    match get_secret cl (req_Namespace req) (req_Name req) with
    | inl _ => Result0
    | inr _ => mkResult false Hour
    end /\
  (get_secret cl (req_Namespace req) (req_Name req) = inl ErrNotFound ->
   forall f g0 (lv : list string),
     f = CertificateExpirationTime \/ f = CertificateDaysUntilExpiration ->
     gauge_state f g0 (sink (fst (fst (@reconcileSecret E pem x509 now range cl W req)))) !! lv =
       if bool_decide (take 2 lv = [req_Namespace req; req_Name req]) then None
       else gauge_state f g0 (sink W) !! lv).
Proof.
  split; [|split].
  - unfold reconcileSecret.
    destruct (get_secret cl (req_Namespace req) (req_Name req)) as [[|m]|secret]; done.
  - unfold reconcileSecret.
    destruct (get_secret cl (req_Namespace req) (req_Name req)) as [[|m]|secret]; done.
  - apply reconcileSecret_not_found_gauges.
Qed.

(** C7: [parseCertificateFromPEM] fails with the PEM-block error exactly
    when [pem.Decode] finds no block, fails with the wrapped certificate
    error exactly when a block is found but [x509.ParseCertificate] rejects
    its bytes, and otherwise returns the parsed certificate; the bytes after
    the first block play no part. *)
Theorem parseCertificateFromPEM_spec {E : Type} pem x509 (data : bytes) :
  (@parseCertificateFromPEM E pem x509 data = inl ErrPEMBlock <-> pem data = None) /\
  (forall err, parseCertificateFromPEM pem x509 data = inl (ErrParseCertificate err) <->
     exists b rest, pem data = Some (b, rest) /\ x509 (block_Bytes b) = inl err) /\
  (forall cert, parseCertificateFromPEM pem x509 data = inr cert <->
     exists b rest, pem data = Some (b, rest) /\ x509 (block_Bytes b) = inr cert) /\
  (forall data' b rest rest', pem data = Some (b, rest) -> pem data' = Some (b, rest') ->
     parseCertificateFromPEM pem x509 data = parseCertificateFromPEM pem x509 data').
Proof.
  unfold parseCertificateFromPEM. split; [|split; [|split]].
  - destruct (pem data) as [[b rest]|]; [|done].
    destruct (x509 (block_Bytes b)); split; congruence.
  - intros err. destruct (pem data) as [[b rest]|].
    + destruct (x509 (block_Bytes b)) as [e|c] eqn:Ex; split.
      * intros [= ->]. eauto.
      * intros (b' & r' & [= <- <-] & Hx). congruence.
      * done.
      * intros (b' & r' & [= <- <-] & Hx). congruence.
    + split; [done|]. intros (b' & r' & Hn & _). done.
  - intros cert. destruct (pem data) as [[b rest]|].
    + destruct (x509 (block_Bytes b)) as [e|c] eqn:Ex; split.
      * done.
      * intros (b' & r' & [= <- <-] & Hx). congruence.
      * intros [= ->]. eauto.
      * intros (b' & r' & [= <- <-] & Hx). congruence.
    + split; [done|]. intros (b' & r' & Hn & _). done.
  - intros data' b rest rest' H1 H2. by rewrite H1, H2.
Qed.

(** ** Days until expiration *)

Lemma Duration_Hours_exact (d : Z) :
  (Duration_Hours d == inject_Z d / inject_Z Hour)%Q.
Proof.
  unfold Duration_Hours.
  assert (Hd : d = Hour * Z.quot d Hour + Z.rem d Hour)
    by (apply Z.quot_rem; unfold Hour, Second; lia).
  change (inject_Z (60 * 60 * 1000000000)) with (inject_Z Hour).
  rewrite Hd at 3. rewrite inject_Z_plus, (inject_Z_mult Hour).
  field. unfold Qeq, Hour, Second. simpl. lia.
Qed.

Lemma daysUntilExpiration_exact (t u : Time) :
  (daysUntilExpiration t u == inject_Z (Time_Sub t u) / inject_Z (86400 * Second))%Q.
Proof.
  unfold daysUntilExpiration. rewrite Duration_Hours_exact.
  change (inject_Z (86400 * Second)) with (inject_Z Hour * inject_Z 24)%Q.
  field. repeat split; unfold Qeq, Hour, Second; simpl; lia.
Qed.

Lemma Time_Sub_cases (t u : Time) :
  0 <= t_nsec t < Second -> 0 <= t_nsec u < Second ->
  let d := (t_sec t - t_sec u) * Second + (t_nsec t - t_nsec u) in
  (minDuration <= d <= maxDuration -> Time_Sub t u = d) /\
  (maxDuration < d -> Time_Sub t u = maxDuration) /\
  (d < minDuration -> Time_Sub t u = minDuration).
Proof.
  intros Ht Hu d.
  assert (Hmin : minDuration = -9223372036854775808) by reflexivity.
  assert (Hmax : maxDuration = 9223372036854775807) by reflexivity.
  unfold Time_Sub. fold d.
  unfold Time_Before, Second in *.
  split; [|split]; intros Hd.
  - rewrite (proj2 (Z.leb_le _ _) (proj1 Hd)), (proj2 (Z.leb_le _ _) (proj2 Hd)). done.
  - rewrite (proj2 (Z.leb_gt d maxDuration) Hd), andb_false_r.
    destruct (Z.ltb_spec (t_sec t) (t_sec u)); [unfold d in Hd; lia|].
    destruct (Z.eqb_spec (t_sec t) (t_sec u)); [unfold d in Hd; lia|]. done.
  - rewrite (proj2 (Z.leb_gt minDuration d) Hd). simpl.
    destruct (Z.ltb_spec (t_sec t) (t_sec u)); [done|].
    exfalso. unfold d in Hd. nia.
Qed.

(** C8 (as amended): a certificate that parses gets two publications:
    the expiry as Unix seconds, and the days until expiry, signed and not
    clamped, equal to (NotAfter - now) / 86400 s when that difference fits
    in a [time.Duration] (about 292 years), and saturated at
    [maxDuration] or [minDuration] nanoseconds otherwise ([float64]
    rounding not modelled). *)
Theorem checkCertificateExpiration_published_values {E : Type} pem x509 now
    (W : World) (ns sn ct : string) (data : bytes) (cert : Certificate)
    (Hparse : @parseCertificateFromPEM E pem x509 data = inr cert)
    (Hwf1 : 0 <= t_nsec (NotAfter cert) < Second)
    (Hwf2 : 0 <= t_nsec (now (clk W)) < Second) :
  let d := (t_sec (NotAfter cert) - t_sec (now (clk W))) * Second +
           (t_nsec (NotAfter cert) - t_nsec (now (clk W))) in
  snd (checkCertificateExpiration pem x509 now W ns sn ct data) = None /\
  exists days,
    sink (fst (checkCertificateExpiration pem x509 now W ns sn ct data)) =
      sink W ++ [GaugeSet CertificateExpirationTime (cert_labels ns sn ct)
                   (inject_Z (t_sec (NotAfter cert)));
                 GaugeSet CertificateDaysUntilExpiration (cert_labels ns sn ct) days] /\
    (minDuration <= d <= maxDuration -> (days == inject_Z d / inject_Z (86400 * Second))%Q) /\
    (maxDuration < d -> (days == inject_Z maxDuration / inject_Z (86400 * Second))%Q) /\
    (d < minDuration -> (days == inject_Z minDuration / inject_Z (86400 * Second))%Q).
Proof.
  intros d. rewrite (checkCertificateExpiration_ok pem x509 now W ns sn ct data cert Hparse).
  split; [done|].
  exists (daysUntilExpiration (NotAfter cert) (now (clk W))). split; [done|].
  destruct (Time_Sub_cases (NotAfter cert) (now (clk W)) Hwf1 Hwf2) as (H1 & H2 & H3).
  fold d in H1, H2, H3.
  split; [|split]; intros Hd; rewrite daysUntilExpiration_exact.
  - by rewrite (H1 Hd).
  - by rewrite (H2 Hd).
  - by rewrite (H3 Hd).
Qed.

(** C8 fails as stated: for a certificate expiring at 9999-12-31T23:59:59Z
    evaluated on 2026-10-15, [Time.Sub] saturates and the published days
    differ from (NotAfter - now) / 86400. *)
Lemma days_until_far_expiry_saturates :
  let W' := fst (checkCertificateExpiration sample_pem_Decode sample_x509
                   (fun _ => now_2026) world0 "linkerd" "linkerd-identity-issuer"
                   "crt.pem" [Byte.x01]) in
  exists v,
    GaugeSet CertificateDaysUntilExpiration
      (cert_labels "linkerd" "linkerd-identity-issuer" "crt.pem") v ∈ sink W' /\
    ~ (v == inject_Z (Time_Unix far_future_expiry - Time_Unix now_2026) / inject_Z 86400)%Q.
Proof.
  cbv zeta.
  rewrite (checkCertificateExpiration_ok sample_pem_Decode sample_x509 (fun _ => now_2026)
             world0 "linkerd" "linkerd-identity-issuer" "crt.pem" [Byte.x01]
             (mkCertificate far_future_expiry) eq_refl).
  eexists. split.
  - apply elem_of_app. right. apply list_elem_of_further, list_elem_of_here.
  - unfold Qeq. vm_compute. discriminate.
Qed.

(** C2: a deleted pod's counters stay in [observedRestarts]: after
    [default/web-0] restarts once, is deleted (not found), and is recreated
    under the same name with a container [app] that has restarted once, the
    recreated pod's restart is not reported, although on an unseen identity
    it would be. *)
Theorem reconcilePod_deleted_pod_keeps_counter :
  let cl1 := cluster_with_pod (pod_web0 oom_kill) in
  let cl3 := cluster_with_pod (pod_web0 app_error) in
  let W1 := fst (fst (reconcilePod cl1 world0 req_web0)) in
  let W2 := fst (fst (reconcilePod cluster_empty W1 req_web0)) in
  let W3 := fst (fst (reconcilePod cl3 W2 req_web0)) in
  observedRestarts W2 !! "default/web-0/app" = Some 1 /\
  sink W3 = sink W2 /\
  sink (fst (fst (reconcilePod cl3 world0 req_web0))) =
    [termination_op (pod_web0 app_error) (mkContainerStatus "app" 1 (Some app_error)) app_error].
Proof. split; [|split]; vm_compute; reflexivity. Qed.

(** C6 fails as stated: when the issuer secret is not found, the
    reconciliation does not schedule the hourly re-check. *)
Lemma reconcileSecret_not_found_no_requeue :
  RequeueAfter (snd (fst (Reconcile sample_pem_Decode sample_x509 (fun _ => now_2026)
                            map_to_list cluster_empty world0 req_issuer))) <> Hour.
Proof. vm_compute. discriminate. Qed.

(** ** Witnesses: the theorems with hypotheses, applied to sample inputs *)

Lemma reconcilePod_restart_dedup_witness :
  fst (fst (reconcilePod (cluster_with_pod (pod_web0 oom_kill))
              (fst (fst (reconcilePod (cluster_with_pod (pod_web0 oom_kill)) world0 req_web0)))
              req_web0)) =
  fst (fst (reconcilePod (cluster_with_pod (pod_web0 oom_kill)) world0 req_web0)).
Proof.
  exact (proj2 (reconcilePod_restart_dedup (cluster_with_pod (pod_web0 oom_kill)) world0
                  req_web0 (pod_web0 oom_kill) eq_refl (NoDup_singleton "app"))).
Defined.

Lemma reconcileSecret_key_failure_isolated_witness :
  snd (reconcileSecret sample_pem_Decode sample_x509 (fun _ => now_2026) map_to_list
         (cluster_with_secret sample_secret) world0 req_issuer) = None.
Proof.
  exact (proj1 (reconcileSecret_key_failure_isolated sample_pem_Decode sample_x509
                  (fun _ => now_2026) map_to_list (cluster_with_secret sample_secret) world0
                  req_issuer sample_secret (fun d => Permutation_refl (map_to_list d)) eq_refl)).
Defined.

Lemma reconcileSecret_not_found_cleanup_witness :
  snd (reconcileSecret sample_pem_Decode sample_x509 (fun _ => now_2026) map_to_list
         cluster_empty world0 req_issuer) = None.
Proof.
  exact (proj1 (reconcileSecret_not_found_cleanup sample_pem_Decode sample_x509
                  (fun _ => now_2026) map_to_list cluster_empty world0 req_issuer eq_refl)).
Defined.

Lemma parseCertificateFromPEM_spec_witness :
  parseCertificateFromPEM sample_pem_Decode sample_x509 [Byte.x01; Byte.x00] =
  parseCertificateFromPEM sample_pem_Decode sample_x509 [Byte.x01; Byte.x02].
Proof.
  exact (proj2 (proj2 (proj2 (parseCertificateFromPEM_spec sample_pem_Decode sample_x509
                                [Byte.x01; Byte.x00])))
           [Byte.x01; Byte.x02] (mkBlock "CERTIFICATE" [Byte.x01]) [Byte.x00] [Byte.x02]
           eq_refl eq_refl).
Defined.

Lemma checkCertificateExpiration_published_values_witness :
  snd (checkCertificateExpiration sample_pem_Decode sample_x509 (fun _ => now_2026) world0
         "linkerd" "linkerd-identity-issuer" "crt.pem" [Byte.x01]) = None.
Proof.
  exact (proj1 (checkCertificateExpiration_published_values sample_pem_Decode sample_x509
                  (fun _ => now_2026) world0 "linkerd" "linkerd-identity-issuer" "crt.pem"
                  [Byte.x01] (mkCertificate far_future_expiry) eq_refl
                  (conj (Z.le_refl 0) eq_refl) (conj (Z.le_refl 0) eq_refl))).
Defined.

(** * Further properties of the controller *)

(** ** Operations on the sink *)

Lemma apply_op_other_family (f : Family) (g : Series) (op : SinkOp) :
  op_family op <> f -> apply_op f g op = g.
Proof.
  intros Hne. destruct op as [f' ls v|f' ls]; simpl in Hne; unfold apply_op;
    rewrite decide_False; congruence.
Qed.

Lemma fold_apply_op_other_family (f : Family) : forall (l : list SinkOp) (g : Series),
  (forall op, op ∈ l -> op_family op <> f) -> fold_left (apply_op f) l g = g.
Proof.
  induction l as [|op l IH]; intros g Hl; simpl; [done|].
  rewrite apply_op_other_family by (apply Hl, list_elem_of_here).
  apply IH. intros op' Hop'. apply Hl. by apply list_elem_of_further.
Qed.

Lemma apply_op_set_same (f : Family) (g : Series) (ls : Labels) (lv : list string) (v : Q) :
  label_values f ls = Some lv -> apply_op f g (GaugeSet f ls v) = <[lv := v]> g.
Proof. intros Hl. unfold apply_op. rewrite decide_True by done. by rewrite Hl. Qed.

Lemma apply_op_set_other (f f' : Family) (g : Series) (ls : Labels) (v : Q) :
  f <> f' -> apply_op f g (GaugeSet f' ls v) = g.
Proof. intros Hne. unfold apply_op. by rewrite decide_False. Qed.

(** Only a [DeletePartialMatch] on a gauge can remove one of its series. *)
Lemma apply_op_keeps_series (f : Family) (g : Series) (op : SinkOp) (lv : list string) :
  (forall ls, op <> GaugeDeletePartialMatch f ls) ->
  is_Some (g !! lv) -> is_Some (apply_op f g op !! lv).
Proof.
  intros Hop Hs. destruct op as [f' ls v|f' ls]; unfold apply_op.
  - destruct (decide (f = f')); [|done].
    destruct (label_values f ls); [|done].
    rewrite lookup_insert_is_Some'. by right.
  - destruct (decide (f = f')) as [->|]; [|done]. by destruct (Hop ls).
Qed.

Lemma fold_keeps_series (f : Family) (lv : list string) : forall (l : list SinkOp) (g : Series),
  (forall op, op ∈ l -> forall ls, op <> GaugeDeletePartialMatch f ls) ->
  is_Some (g !! lv) -> is_Some (fold_left (apply_op f) l g !! lv).
Proof.
  induction l as [|op l IH]; intros g Hl Hs; simpl; [done|].
  apply IH; [intros op' Hop'; apply Hl; by apply list_elem_of_further|].
  apply apply_op_keeps_series; [|done]. apply Hl, list_elem_of_here.
Qed.

(** ** What each path issues *)

(** The loop over the statuses of a pod issues only termination-info
    publications, one per status it reports, and reads no clock. *)
Lemma observe_fold_ops pod : forall (l : list ContainerStatus) (W : World),
  let W' := fold_left (observeContainer pod) l W in
  clk W' = clk W /\ exists new, sink W' = sink W ++ new /\
  forall op, op ∈ new -> exists cs t, cs ∈ l /\ op = termination_op pod cs t.
Proof.
  induction l as [|cs l IH]; intros W; simpl.
  - split; [done|]. exists []. rewrite app_nil_r. split; [done|].
    intros op Hop. by apply elem_of_nil in Hop.
  - destruct (IH (observeContainer pod W cs)) as (Hc & new & Hs & Hops).
    destruct (observeContainer_cases pod W cs) as [(_ & t & _ & Heq)|(_ & Heq)];
      rewrite Heq in Hc, Hs |- *; simpl in Hc, Hs.
    + split; [done|]. exists (termination_op pod cs t :: new).
      split; [rewrite Hs; by rewrite <- app_assoc|].
      intros op Hop. apply elem_of_cons in Hop as [->|Hop].
      * exists cs, t. split; [apply list_elem_of_here|done].
      * destruct (Hops op Hop) as (cs' & t' & Hin & ->).
        exists cs', t'. split; [by apply list_elem_of_further|done].
    + split; [done|]. exists new. split; [done|].
      intros op Hop. destruct (Hops op Hop) as (cs' & t' & Hin & ->).
      exists cs', t'. split; [by apply list_elem_of_further|done].
Qed.

Lemma reconcilePod_ops (cl : Cluster) (W : World) (req : Request) :
  let W' := fst (fst (reconcilePod cl W req)) in
  clk W' = clk W /\ exists new, sink W' = sink W ++ new /\
  forall op, op ∈ new -> exists ls v, op = GaugeSet PodLastTerminationInfo ls v.
Proof.
  unfold reconcilePod.
  destruct (get_pod cl (req_Namespace req) (req_Name req)) as [err|pod].
  - destruct (ignore_not_found_fails err); simpl;
      (split; [done|]); exists []; rewrite app_nil_r; (split; [done|]);
      intros op Hop; by apply elem_of_nil in Hop.
  - simpl. unfold observePod.
    destruct (observe_fold_ops pod (ContainerStatuses pod) W) as (Hc & new & Hs & Hops).
    split; [done|]. exists new. split; [done|].
    intros op Hop. destruct (Hops op Hop) as (cs & t & _ & ->). by eexists _, _.
Qed.

(** The loop over the entries of a secret issues only publications on the
    certificate gauges. *)
Lemma secret_fold_families {E : Type} pem x509 now req : forall l (W : World),
  let W' := fold_left (@checkSecretEntry E pem x509 now req) l W in
  exists new, sink W' = sink W ++ new /\
  forall op, op ∈ new -> exists f ls v, op = GaugeSet f ls v /\ f <> PodLastTerminationInfo.
Proof.
  induction l as [|[k d] l IH]; intros W; simpl.
  - exists []. rewrite app_nil_r. split; [done|]. intros op Hop. by apply elem_of_nil in Hop.
  - set (W1 := if recognized_key k
               then fst (checkCertificateExpiration pem x509 now W
                           (req_Namespace req) (req_Name req) k d) else W).
    destruct (IH W1) as (n2 & Hs2 & Hops2).
    assert (H1 : exists n1 : list SinkOp, sink W1 = sink W ++ n1 /\
              forall op, op ∈ n1 -> exists f ls v, op = GaugeSet f ls v /\ f <> PodLastTerminationInfo).
    { unfold W1. destruct (recognized_key k);
        [destruct (parseCertificateFromPEM pem x509 d) as [err|cert] eqn:Hp|].
      - rewrite (checkCertificateExpiration_err _ _ _ _ _ _ _ _ err Hp). simpl.
        exists []. rewrite app_nil_r. split; [done|]. intros op Hop. by apply elem_of_nil in Hop.
      - rewrite (checkCertificateExpiration_ok _ _ _ _ _ _ _ _ cert Hp). simpl.
        eexists. split; [reflexivity|].
        intros op Hop. apply elem_of_cons in Hop as [->|Hop];
          [|apply elem_of_cons in Hop as [->|Hop]; [|by apply elem_of_nil in Hop]];
          (eexists _, _, _; split; [reflexivity|discriminate]).
      - exists []. rewrite app_nil_r. split; [done|]. intros op Hop. by apply elem_of_nil in Hop. }
    destruct H1 as (n1 & Hs1 & Hops1).
    exists (n1 ++ n2). split; [rewrite Hs2, Hs1; by rewrite app_assoc|].
    intros op Hop. apply elem_of_app in Hop as [Hop|Hop]; auto.
Qed.

Lemma reconcileSecret_ops {E : Type} pem x509 now range cl (W : World) req :
  let W' := fst (fst (@reconcileSecret E pem x509 now range cl W req)) in
  observedRestarts W' = observedRestarts W /\
  exists new, sink W' = sink W ++ new /\
  forall op, op ∈ new -> op_family op <> PodLastTerminationInfo /\
    (forall f ls, op = GaugeDeletePartialMatch f ls ->
       get_secret cl (req_Namespace req) (req_Name req) = inl ErrNotFound).
Proof.
  unfold reconcileSecret.
  destruct (get_secret cl (req_Namespace req) (req_Name req)) as [err|secret] eqn:Hg.
  - destruct err as [|msg]; simpl.
    + split; [done|]. eexists. split; [by rewrite <- app_assoc|].
      intros op Hop. apply elem_of_cons in Hop as [->|Hop];
        [|apply elem_of_cons in Hop as [->|Hop]; [|by apply elem_of_nil in Hop]];
        (split; [discriminate|done]).
    + split; [done|]. exists []. rewrite app_nil_r. split; [done|].
      intros op Hop. by apply elem_of_nil in Hop.
  - simpl. split; [apply (secret_fold_world pem x509 now req)|].
    destruct (secret_fold_families pem x509 now req (range (Data secret)) W)
      as (new & Hs & Hops).
    exists new. split; [exact Hs|]. intros op Hop.
    destruct (Hops op Hop) as (f & ls & v & -> & Hf). split; [exact Hf|discriminate].
Qed.

(** Every step of a run leaves the termination-info series it found. *)
Lemma reconcile_step_no_termination_delete {E : Type} pem x509 now range cl (W : World) req :
  let W' := fst (fst (@Reconcile E pem x509 now range cl W req)) in
  exists new, sink W' = sink W ++ new /\
  forall op, op ∈ new -> forall ls, op <> GaugeDeletePartialMatch PodLastTerminationInfo ls.
Proof.
  unfold Reconcile. destruct (is_secret_request req).
  - destruct (reconcileSecret_ops pem x509 now range cl W req) as (_ & new & Hs & Hops).
    exists new. split; [exact Hs|]. intros op Hop ls ->.
    by destruct (Hops _ Hop) as [Hf _].
  - destruct (reconcilePod_ops cl W req) as (_ & new & Hs & Hops).
    exists new. split; [exact Hs|]. intros op Hop ls ->.
    by destruct (Hops _ Hop) as (ls' & v & ?).
Qed.

(** ** Dispatch *)

(** X1: a request that does not name the issuer secret goes down the pod
    path: it reads no clock and leaves both certificate gauges exactly as
    they were. *)
Theorem Reconcile_pod_request_keeps_certificate_gauges {E : Type} pem x509 now range
    (cl : Cluster) (W : World) (req : Request) :
  is_secret_request req = false ->
  let W' := fst (fst (@Reconcile E pem x509 now range cl W req)) in
  clk W' = clk W /\
  forall f g0, f <> PodLastTerminationInfo -> gauge_state f g0 (sink W') = gauge_state f g0 (sink W).
Proof.
  intros Hreq W'. unfold W', Reconcile. rewrite Hreq.
  destruct (reconcilePod_ops cl W req) as (Hc & new & Hs & Hops).
  split; [exact Hc|]. intros f g0 Hf.
  rewrite Hs, gauge_state_app. apply fold_apply_op_other_family.
  intros op Hop. destruct (Hops op Hop) as (ls & v & ->). simpl. congruence.
Qed.

(** X2: a request naming linkerd/linkerd-identity-issuer goes down the
    certificate path whatever kind of object triggered it: it leaves the
    restart counters and the termination-info gauge exactly as they were. *)
Theorem Reconcile_issuer_request_skips_restart_tracking {E : Type} pem x509 now range
    (cl : Cluster) (W : World) (req : Request) :
  is_secret_request req = true ->
  let W' := fst (fst (@Reconcile E pem x509 now range cl W req)) in
  observedRestarts W' = observedRestarts W /\
  forall g0, gauge_state PodLastTerminationInfo g0 (sink W') =
             gauge_state PodLastTerminationInfo g0 (sink W).
Proof.
  intros Hreq W'. unfold W', Reconcile. rewrite Hreq.
  destruct (reconcileSecret_ops pem x509 now range cl W req) as (Ho & new & Hs & Hops).
  split; [exact Ho|]. intros g0.
  rewrite Hs, gauge_state_app. apply fold_apply_op_other_family.
  intros op Hop. by destruct (Hops op Hop) as [Hf _].
Qed.

(** X3: a failed fetch leaves the controller state and every gauge as they
    were: on the pod path whatever the error, on the certificate path for
    any error other than "not found". *)
Theorem Reconcile_fetch_failure_no_effect {E : Type} pem x509 now range
    (cl : Cluster) (W : World) (req : Request) (err : ApiError) :
  (if is_secret_request req
   then get_secret cl (req_Namespace req) (req_Name req) = inl err /\ err <> ErrNotFound
   else get_pod cl (req_Namespace req) (req_Name req) = inl err) ->
  fst (fst (@Reconcile E pem x509 now range cl W req)) = W.
Proof.
  unfold Reconcile. destruct (is_secret_request req).
  - intros [Hg Hne]. unfold reconcileSecret. rewrite Hg.
    destruct err as [|msg]; [congruence|reflexivity].
  - intros Hg. unfold reconcilePod. rewrite Hg.
    by destruct (ignore_not_found_fails err).
Qed.

(** ** Series that are never removed *)

(** X4: no reconciliation ever removes a termination-info series: over any
    run, a series present at the start is still present at the end (possibly
    with a newer value). *)
Theorem run_keeps_termination_series {E : Type} pem x509 now range :
  forall (steps : list (Cluster * Request)) (W : World) (g0 : Series) (lv : list string),
  is_Some (gauge_state PodLastTerminationInfo g0 (sink W) !! lv) ->
  is_Some (gauge_state PodLastTerminationInfo g0
             (sink (@run E pem x509 now range W steps)) !! lv).
Proof.
  induction steps as [|[cl req] steps IH]; intros W g0 lv Hs; simpl; [exact Hs|].
  apply IH.
  destruct (reconcile_step_no_termination_delete pem x509 now range cl W req)
    as (new & Hsink & Hops).
  rewrite Hsink, gauge_state_app. by apply fold_keeps_series.
Qed.

(** X5: only the "not found" branch of the certificate path deletes series:
    every other reconciliation keeps every series of every gauge. *)
Theorem Reconcile_keeps_series_unless_secret_gone {E : Type} pem x509 now range
    (cl : Cluster) (W : World) (req : Request) :
  (is_secret_request req = true ->
   get_secret cl (req_Namespace req) (req_Name req) <> inl ErrNotFound) ->
  let W' := fst (fst (@Reconcile E pem x509 now range cl W req)) in
  forall f g0 lv, is_Some (gauge_state f g0 (sink W) !! lv) ->
                  is_Some (gauge_state f g0 (sink W') !! lv).
Proof.
  intros Hgone W' f g0 lv Hs. unfold W', Reconcile in *.
  destruct (is_secret_request req).
  - destruct (reconcileSecret_ops pem x509 now range cl W req) as (_ & new & Hsink & Hops).
    rewrite Hsink, gauge_state_app. apply fold_keeps_series; [|exact Hs].
    intros op Hop ls ->. destruct (Hops _ Hop) as [_ Hdel].
    exact (Hgone eq_refl (Hdel f ls eq_refl)).
  - destruct (reconcilePod_ops cl W req) as (_ & new & Hsink & Hops).
    rewrite Hsink, gauge_state_app. apply fold_keeps_series; [|exact Hs].
    intros op Hop ls ->. by destruct (Hops _ Hop) as (ls' & v & ?).
Qed.

(** ** The secret watch *)

(** X6: every create or update event the secret watch lets through is
    enqueued as a request that [Reconcile] hands to [reconcileSecret]; delete
    events are never let through. *)
Theorem secret_watch_routes_to_reconcileSecret {E : Type} pem x509 now range
    (cl : Cluster) (W : World) (e : WatchEvent) :
  (forall o, e <> EvGeneric o) -> secret_predicate e = true ->
  (forall o, e <> EvDelete o) /\
  @Reconcile E pem x509 now range cl W (enqueue_request e) =
    reconcileSecret pem x509 now range cl W (enqueue_request e).
Proof.
  intros Hgen Hpred.
  assert (Hsec : is_secret_request (enqueue_request e) = true).
  { destruct e as [o|o' o|o|o]; simpl in Hpred |- *; try done.
    by destruct (Hgen o). }
  split.
  - intros o ->. discriminate.
  - unfold Reconcile. by rewrite Hsec.
Qed.

(** ** The pod path, series by series *)

Lemma label_values_termination_labels pod cs t :
  label_values PodLastTerminationInfo (termination_labels pod cs t) =
    Some [pod_Namespace pod; pod_Name pod; cs_Name cs; Reason t; pretty (ExitCode t)].
Proof. reflexivity. Qed.

Lemma observeContainer_other_key pod (W : World) cs k :
  k <> pod_key pod cs -> observedRestarts (observeContainer pod W cs) !! k = observedRestarts W !! k.
Proof.
  intros Hk. destruct (observeContainer_cases pod W cs) as [(_ & t & _ & ->)|(_ & ->)]; [|done].
  simpl. by rewrite lookup_insert_ne by congruence.
Qed.

Lemma observe_fold_other_keys pod : forall (l : list ContainerStatus) (W : World) k,
  (forall cs, cs ∈ l -> k <> pod_key pod cs) ->
  observedRestarts (fold_left (observeContainer pod) l W) !! k = observedRestarts W !! k.
Proof.
  induction l as [|cs l IH]; intros W k Hk; simpl; [done|].
  rewrite IH by (intros cs' Hin; apply Hk; by apply list_elem_of_further).
  apply observeContainer_other_key, Hk, list_elem_of_here.
Qed.

(** X7: reconciling a pod touches only that pod: the restart counters of
    every other key, and every termination-info series whose namespace and
    pod labels name another pod, keep their values. *)
Theorem reconcilePod_only_touches_fetched_pod (cl : Cluster) (W : World) (req : Request)
    (pod : Pod) :
  get_pod cl (req_Namespace req) (req_Name req) = inr pod ->
  let W' := fst (fst (reconcilePod cl W req)) in
  (forall k, (forall c, k <> containerKey (pod_Namespace pod) (pod_Name pod) c) ->
     observedRestarts W' !! k = observedRestarts W !! k) /\
  (forall g0 (lv : list string), take 2 lv <> [pod_Namespace pod; pod_Name pod] ->
     gauge_state PodLastTerminationInfo g0 (sink W') !! lv =
     gauge_state PodLastTerminationInfo g0 (sink W) !! lv).
Proof.
  intros Hget W'. unfold W', reconcilePod. rewrite Hget. simpl. unfold observePod. split.
  - intros k Hk. apply observe_fold_other_keys. intros cs _. apply Hk.
  - intros g0 lv Hlv.
    destruct (observe_fold_ops pod (ContainerStatuses pod) W) as (_ & new & Hs & Hops).
    rewrite Hs, gauge_state_app. apply fold_apply_op_other.
    intros op Hop. destruct (Hops op Hop) as (cs & t & _ & ->).
    unfold termination_op. eexists _, _, _. split; [reflexivity|].
    rewrite label_values_termination_labels. intros Heq. injection Heq as Heq.
    apply Hlv. by rewrite <- Heq.
Qed.

Lemma observe_fold_series pod (cs : ContainerStatus) (t : ContainerStateTerminated) :
  forall (l : list ContainerStatus) (W : World),
  NoDup (map cs_Name l) -> cs ∈ l ->
  observed W (pod_key pod cs) < RestartCount cs -> LastTerminated cs = Some t ->
  forall g0, gauge_state PodLastTerminationInfo g0 (sink (fold_left (observeContainer pod) l W))
     !! [pod_Namespace pod; pod_Name pod; cs_Name cs; Reason t; pretty (ExitCode t)] =
   Some (inject_Z (Time_Unix (FinishedAt t))).
Proof.
  induction l as [|cs0 l IH]; intros W Hnd Hin Hgt Ht g0; [by apply elem_of_nil in Hin|].
  simpl in Hnd |- *. apply NoDup_cons in Hnd as [Hn0 Hnd].
  apply elem_of_cons in Hin as [->|Hin].
  - destruct (observeContainer_cases pod W cs0) as [(_ & t' & Ht' & Heq)|([Hle|Hnone] & _)];
      [|lia|congruence].
    rewrite Ht in Ht'. injection Ht' as <-.
    destruct (observe_fold_ops pod l (observeContainer pod W cs0)) as (_ & new & Hs & Hops).
    rewrite Hs, Heq. simpl. rewrite !gauge_state_app.
    rewrite fold_apply_op_other.
    + cbn [fold_left]. unfold termination_op.
      rewrite (apply_op_set_same _ _ _ _ _ (label_values_termination_labels pod cs0 t)).
      apply lookup_insert_eq.
    + intros op Hop. destruct (Hops op Hop) as (cs' & t' & Hin' & ->).
      unfold termination_op. eexists _, _, _. split; [reflexivity|].
      rewrite label_values_termination_labels. intros Heq'.
      assert (Hname : cs_Name cs' = cs_Name cs0) by congruence.
      apply Hn0. rewrite <- Hname. apply list_elem_of_In, in_map, list_elem_of_In, Hin'.
  - assert (Hne : cs_Name cs0 <> cs_Name cs).
    { intros Hname. apply Hn0. rewrite Hname.
      apply list_elem_of_In, in_map, list_elem_of_In, Hin. }
    apply IH; [exact Hnd|exact Hin| |exact Ht].
    unfold observed. rewrite observeContainer_other_key; [exact Hgt|].
    unfold pod_key. intros Hk. apply containerKey_inj in Hk. congruence.
Qed.

(** X8: when a reconciliation reports a container (its restart count above
    the stored one, a last termination present, container names distinct
    in the pod), the termination-info series of that container, reason and
    exit code holds the Unix time at which the container finished. *)
Theorem reconcilePod_termination_series_value (cl : Cluster) (W : World) (req : Request)
    (pod : Pod) (cs : ContainerStatus) (t : ContainerStateTerminated) :
  get_pod cl (req_Namespace req) (req_Name req) = inr pod ->
  NoDup (map cs_Name (ContainerStatuses pod)) ->
  cs ∈ ContainerStatuses pod ->
  observed W (pod_key pod cs) < RestartCount cs ->
  LastTerminated cs = Some t ->
  forall g0, gauge_state PodLastTerminationInfo g0 (sink (fst (fst (reconcilePod cl W req))))
     !! [pod_Namespace pod; pod_Name pod; cs_Name cs; Reason t; pretty (ExitCode t)] =
   Some (inject_Z (Time_Unix (FinishedAt t))).
Proof.
  intros Hget Hnd Hin Hgt Ht g0. unfold reconcilePod. rewrite Hget. simpl.
  by apply observe_fold_series.
Qed.

(** ** The certificate path, series by series *)

(** X9: a reconciliation of a found secret publishes only on the two
    certificate gauges, and only for keys of the allow-list present in the
    secret whose data parses as a certificate; other keys, and keys whose
    data does not parse, get nothing. *)
Theorem reconcileSecret_publishes_only_listed_valid_keys {E : Type} pem x509 now range
    (cl : Cluster) (W : World) (req : Request) (secret : Secret)
    (Hrange : forall d, range d ≡ₚ map_to_list d)
    (Hget : get_secret cl (req_Namespace req) (req_Name req) = inr secret) :
  let W' := fst (fst (@reconcileSecret E pem x509 now range cl W req)) in
  exists new, sink W' = sink W ++ new /\
  forall op, op ∈ new -> exists f key data cert v,
    Data secret !! key = Some data /\ recognized_key key = true /\
    parseCertificateFromPEM pem x509 data = inr cert /\
    f <> PodLastTerminationInfo /\
    op = GaugeSet f (cert_labels (req_Namespace req) (req_Name req) key) v.
Proof.
  intros W'. unfold W', reconcileSecret. rewrite Hget. simpl.
  destruct (secret_fold_spec pem x509 now req (range (Data secret)) W) as (new & Hs & Hops & _).
  destruct (secret_fold_families pem x509 now req (range (Data secret)) W) as (new' & Hs' & Hf).
  rewrite Hs in Hs'. apply app_inv_head in Hs'. subst new'.
  exists new. split; [exact Hs|]. intros op Hop.
  destruct (Hops op Hop) as (k & d & cert & f & v & Hin & Hk & Hp & Hop').
  destruct (Hf op Hop) as (f' & ls & v' & Hop'' & Hf').
  rewrite Hop' in Hop''. injection Hop'' as -> _ _.
  exists f', k, d, cert, v. repeat split; try done.
  rewrite (Hrange (Data secret)) in Hin. by apply elem_of_map_to_list in Hin.
Qed.

Lemma secret_fold_values {E : Type} pem x509 now req : forall l (W : World),
  NoDup (l.*1) ->
  forall k d cert, (k, d) ∈ l -> recognized_key k = true ->
  @parseCertificateFromPEM E pem x509 d = inr cert ->
  forall g0,
  let W' := fold_left (checkSecretEntry pem x509 now req) l W in
  let lv := [req_Namespace req; req_Name req; k] in
  gauge_state CertificateExpirationTime g0 (sink W') !! lv =
    Some (inject_Z (Time_Unix (NotAfter cert))) /\
  exists t, gauge_state CertificateDaysUntilExpiration g0 (sink W') !! lv =
    Some (daysUntilExpiration (NotAfter cert) t).
Proof.
  induction l as [|[k0 d0] l IH]; intros W Hnd k d cert Hin Hk Hp g0 W' lv;
    [by apply elem_of_nil in Hin|].
  unfold W'. cbn [fold_left]. simpl in Hnd. apply NoDup_cons in Hnd as [Hk0 Hnd].
  apply elem_of_cons in Hin as [Heq|Hin].
  - injection Heq as Hk0e Hd0e. subst k0 d0.
    set (W1 := checkSecretEntry pem x509 now req W (k, d)).
    assert (HW1 : sink W1 = sink W ++
      [GaugeSet CertificateExpirationTime (cert_labels (req_Namespace req) (req_Name req) k)
         (inject_Z (Time_Unix (NotAfter cert)));
       GaugeSet CertificateDaysUntilExpiration (cert_labels (req_Namespace req) (req_Name req) k)
         (daysUntilExpiration (NotAfter cert) (now (clk W)))]).
    { unfold W1, checkSecretEntry. rewrite Hk.
      by rewrite (checkCertificateExpiration_ok _ _ _ _ _ _ _ _ cert Hp). }
    destruct (secret_fold_spec pem x509 now req l W1) as (new & Hs & Hops & _).
    assert (Hother : forall f, fold_left (apply_op f) new
                (fold_left (apply_op f) (sink W1) g0) !! lv =
                fold_left (apply_op f) (sink W1) g0 !! lv).
    { intros f. apply fold_apply_op_other. intros op Hop.
      destruct (Hops op Hop) as (k' & d' & c' & f' & v & Hin' & _ & _ & ->).
      eexists _, _, _. split; [reflexivity|].
      destruct (label_values_cert_labels f (req_Namespace req) (req_Name req) k') as [->| ->];
        [discriminate|].
      intros Heq. injection Heq as ->. apply Hk0.
      apply (list_elem_of_fmap_2 fst l (k, d')), Hin'. }
    unfold gauge_state. rewrite Hs, !fold_left_app, !Hother, HW1, !fold_left_app.
    cbn [fold_left]. split.
    + rewrite (apply_op_set_other CertificateExpirationTime CertificateDaysUntilExpiration)
        by discriminate.
      rewrite (apply_op_set_same _ _ _ lv) by reflexivity. apply lookup_insert_eq.
    + exists (now (clk W)).
      rewrite (apply_op_set_other CertificateDaysUntilExpiration CertificateExpirationTime)
        by discriminate.
      rewrite (apply_op_set_same _ _ _ lv) by reflexivity. apply lookup_insert_eq.
  - exact (IH _ Hnd k d cert Hin Hk Hp g0).
Qed.

(** X10: after a reconciliation of a found secret, for every key of the
    allow-list whose data parses as a certificate, the expiration gauge
    series of that secret and key holds the certificate's NotAfter as Unix
    seconds, and the days gauge series holds the days from some reading of
    the clock to NotAfter, whatever the gauges held before. *)
Theorem reconcileSecret_found_gauge_values {E : Type} pem x509 now range
    (cl : Cluster) (W : World) (req : Request) (secret : Secret)
    (Hrange : forall d, range d ≡ₚ map_to_list d)
    (Hget : get_secret cl (req_Namespace req) (req_Name req) = inr secret) :
  let W' := fst (fst (@reconcileSecret E pem x509 now range cl W req)) in
  forall key data cert, Data secret !! key = Some data -> recognized_key key = true ->
  parseCertificateFromPEM pem x509 data = inr cert ->
  forall g0,
  gauge_state CertificateExpirationTime g0 (sink W') !! [req_Namespace req; req_Name req; key] =
    Some (inject_Z (Time_Unix (NotAfter cert))) /\
  exists t,
  gauge_state CertificateDaysUntilExpiration g0 (sink W') !! [req_Namespace req; req_Name req; key] =
    Some (daysUntilExpiration (NotAfter cert) t).
Proof.
  intros W' key data cert Hd Hk Hp g0. unfold W', reconcileSecret. rewrite Hget. simpl.
  apply (secret_fold_values pem x509 now req _ W) with (d := data); [| |exact Hk|exact Hp].
  - rewrite (Hrange (Data secret)). apply NoDup_fst_map_to_list.
  - rewrite (Hrange (Data secret)). by apply elem_of_map_to_list.
Qed.

(** ** Days until expiration *)

Lemma Q_div_const_sign (s c : Z) :
  0 < c ->
  ((inject_Z s / inject_Z c < 0)%Q <-> s < 0) /\ ((inject_Z s / inject_Z c == 0)%Q <-> s = 0).
Proof.
  intros Hc. destruct c as [|p|p]; [lia| |lia].
  unfold Qlt, Qeq, Qdiv, Qmult, Qinv, inject_Z. simpl. lia.
Qed.

Lemma Time_Sub_sign (t u : Time) :
  0 <= t_nsec t < Second -> 0 <= t_nsec u < Second ->
  (Time_Sub t u < 0 <-> Time_Before t u = true) /\
  (Time_Sub t u = 0 <-> t_sec t = t_sec u /\ t_nsec t = t_nsec u).
Proof.
  intros Ht Hu.
  destruct (Time_Sub_cases t u Ht Hu) as (Hin & Hhi & Hlo).
  set (d := (t_sec t - t_sec u) * Second + (t_nsec t - t_nsec u)) in *.
  assert (Hmin : minDuration = -9223372036854775808) by reflexivity.
  assert (Hmax : maxDuration = 9223372036854775807) by reflexivity.
  assert (Hb : Time_Before t u = true <-> d < 0).
  { unfold Time_Before, d, Second in *. rewrite orb_true_iff, andb_true_iff, Z.ltb_lt,
      Z.eqb_eq, Z.ltb_lt. lia. }
  assert (Hz : d = 0 <-> t_sec t = t_sec u /\ t_nsec t = t_nsec u)
    by (unfold d, Second in *; lia).
  rewrite Hb, <- Hz.
  destruct (Z_lt_le_dec maxDuration d) as [Hgt|Hle];
    [rewrite (Hhi Hgt); lia|].
  destruct (Z_lt_le_dec d minDuration) as [Hlt|Hge];
    [rewrite (Hlo Hlt); lia|].
  rewrite (Hin (conj Hge Hle)). lia.
Qed.

(** X11: the days-until-expiration value is negative exactly when the
    certificate's NotAfter is before the reading of the clock, and zero
    exactly when the two instants are equal; the saturation of [Sub] never
    changes this sign. *)
Theorem daysUntilExpiration_sign (expirationTime now : Time) :
  0 <= t_nsec expirationTime < Second -> 0 <= t_nsec now < Second ->
  ((daysUntilExpiration expirationTime now < 0)%Q <-> Time_Before expirationTime now = true) /\
  ((daysUntilExpiration expirationTime now == 0)%Q <-> expirationTime = now).
Proof.
  intros Ht Hu.
  destruct (Time_Sub_sign expirationTime now Ht Hu) as [Hneg Hzero].
  assert (Hc : 0 < 86400 * Second) by (unfold Second; lia).
  destruct (Q_div_const_sign (Time_Sub expirationTime now) _ Hc) as [Hq0 Hq1].
  rewrite !daysUntilExpiration_exact. split.
  - rewrite Hq0. exact Hneg.
  - rewrite Hq1, Hzero. destruct expirationTime, now; simpl.
    split; [intros [-> ->]; reflexivity|intros Heq; injection Heq; auto].
Qed.

(** ** Witnesses of the further properties *)

Lemma Reconcile_pod_request_keeps_certificate_gauges_witness :
  clk (fst (fst (Reconcile sample_pem_Decode sample_x509 (fun _ => now_2026) map_to_list
                   (cluster_with_pod (pod_web0 oom_kill)) world0 req_web0))) = clk world0.
Proof.
  exact (proj1 (Reconcile_pod_request_keeps_certificate_gauges sample_pem_Decode sample_x509
                  (fun _ => now_2026) map_to_list (cluster_with_pod (pod_web0 oom_kill))
                  world0 req_web0 eq_refl)).
Defined.

Lemma Reconcile_issuer_request_skips_restart_tracking_witness :
  observedRestarts (fst (fst (Reconcile sample_pem_Decode sample_x509 (fun _ => now_2026)
                                map_to_list (cluster_with_secret sample_secret) world0
                                req_issuer))) = observedRestarts world0.
Proof.
  exact (proj1 (Reconcile_issuer_request_skips_restart_tracking sample_pem_Decode sample_x509
                  (fun _ => now_2026) map_to_list (cluster_with_secret sample_secret)
                  world0 req_issuer eq_refl)).
Defined.

Lemma Reconcile_fetch_failure_no_effect_witness :
  fst (fst (Reconcile sample_pem_Decode sample_x509 (fun _ => now_2026) map_to_list
              cluster_empty world0 req_web0)) = world0.
Proof.
  exact (Reconcile_fetch_failure_no_effect sample_pem_Decode sample_x509 (fun _ => now_2026)
           map_to_list cluster_empty world0 req_web0 ErrNotFound eq_refl).
Defined.

Lemma run_keeps_termination_series_witness :
  is_Some (gauge_state PodLastTerminationInfo ∅
             (sink (run sample_pem_Decode sample_x509 (fun _ => now_2026) map_to_list
                      (fst (fst (Reconcile sample_pem_Decode sample_x509 (fun _ => now_2026)
                                   map_to_list (cluster_with_pod (pod_web0 oom_kill))
                                   world0 req_web0)))
                      [(cluster_empty, req_issuer); (cluster_empty, req_web0)]))
           !! ["default"; "web-0"; "app"; "OOMKilled"; "137"]).
Proof.
  apply (run_keeps_termination_series sample_pem_Decode sample_x509 (fun _ => now_2026)
           map_to_list).
  exists (inject_Z 1792000000). vm_compute. reflexivity.
Defined.

Lemma Reconcile_keeps_series_unless_secret_gone_witness :
  is_Some (gauge_state CertificateExpirationTime ∅
             (sink (fst (fst (Reconcile sample_pem_Decode sample_x509 (fun _ => now_2026)
                                map_to_list (cluster_with_secret sample_secret)
                                (fst (fst (Reconcile sample_pem_Decode sample_x509
                                             (fun _ => now_2026) map_to_list
                                             (cluster_with_secret sample_secret) world0
                                             req_issuer)))
                                req_issuer))))
           !! ["linkerd"; "linkerd-identity-issuer"; "crt.pem"]).
Proof.
  apply (Reconcile_keeps_series_unless_secret_gone sample_pem_Decode sample_x509
           (fun _ => now_2026) map_to_list (cluster_with_secret sample_secret)).
  - intros _. discriminate.
  - exists (inject_Z 253402300799). vm_compute. reflexivity.
Defined.

Lemma secret_watch_routes_to_reconcileSecret_witness :
  Reconcile sample_pem_Decode sample_x509 (fun _ => now_2026) map_to_list
    (cluster_with_secret sample_secret) world0
    (enqueue_request (EvUpdate (mkObjectMeta "linkerd" "linkerd-identity-issuer")
                               (mkObjectMeta "linkerd" "linkerd-identity-issuer"))) =
  reconcileSecret sample_pem_Decode sample_x509 (fun _ => now_2026) map_to_list
    (cluster_with_secret sample_secret) world0
    (enqueue_request (EvUpdate (mkObjectMeta "linkerd" "linkerd-identity-issuer")
                               (mkObjectMeta "linkerd" "linkerd-identity-issuer"))).
Proof.
  apply (secret_watch_routes_to_reconcileSecret sample_pem_Decode sample_x509
           (fun _ => now_2026) map_to_list (cluster_with_secret sample_secret) world0).
  - intros o H. discriminate H.
  - reflexivity.
Defined.

Lemma reconcilePod_only_touches_fetched_pod_witness :
  observedRestarts (fst (fst (reconcilePod (cluster_with_pod (pod_web0 oom_kill)) world0 req_web0)))
    !! "kube-system/coredns/coredns" = observedRestarts world0 !! "kube-system/coredns/coredns".
Proof.
  apply (reconcilePod_only_touches_fetched_pod (cluster_with_pod (pod_web0 oom_kill)) world0
           req_web0 (pod_web0 oom_kill) eq_refl).
  intros c H. unfold containerKey in H. simpl in H. discriminate H.
Defined.

Lemma reconcilePod_termination_series_value_witness :
  gauge_state PodLastTerminationInfo ∅
    (sink (fst (fst (reconcilePod (cluster_with_pod (pod_web0 oom_kill)) world0 req_web0))))
    !! ["default"; "web-0"; "app"; "OOMKilled"; "137"] = Some (inject_Z 1792000000).
Proof.
  exact (reconcilePod_termination_series_value (cluster_with_pod (pod_web0 oom_kill)) world0
           req_web0 (pod_web0 oom_kill) (mkContainerStatus "app" 1 (Some oom_kill)) oom_kill
           eq_refl (NoDup_singleton "app") (list_elem_of_here _ _) ltac:(vm_compute; reflexivity)
           eq_refl ∅).
Defined.

Lemma reconcileSecret_publishes_only_listed_valid_keys_witness :
  exists new,
  sink (fst (fst (reconcileSecret sample_pem_Decode sample_x509 (fun _ => now_2026) map_to_list
                    (cluster_with_secret sample_secret) world0 req_issuer))) = sink world0 ++ new /\
  forall op, op ∈ new -> exists f key data cert v,
    Data sample_secret !! key = Some data /\ recognized_key key = true /\
    parseCertificateFromPEM sample_pem_Decode sample_x509 data = inr cert /\
    f <> PodLastTerminationInfo /\
    op = GaugeSet f (cert_labels "linkerd" "linkerd-identity-issuer" key) v.
Proof.
  exact (reconcileSecret_publishes_only_listed_valid_keys sample_pem_Decode sample_x509
           (fun _ => now_2026) map_to_list (cluster_with_secret sample_secret) world0 req_issuer
           sample_secret (fun d => Permutation_refl (map_to_list d)) eq_refl).
Defined.

Lemma reconcileSecret_found_gauge_values_witness :
  gauge_state CertificateExpirationTime ∅
    (sink (fst (fst (reconcileSecret sample_pem_Decode sample_x509 (fun _ => now_2026)
                       map_to_list (cluster_with_secret sample_secret) world0 req_issuer))))
    !! ["linkerd"; "linkerd-identity-issuer"; "crt.pem"] = Some (inject_Z 253402300799).
Proof.
  exact (proj1 (reconcileSecret_found_gauge_values sample_pem_Decode sample_x509
                  (fun _ => now_2026) map_to_list (cluster_with_secret sample_secret) world0
                  req_issuer sample_secret (fun d => Permutation_refl (map_to_list d)) eq_refl
                  "crt.pem" [Byte.x01] (mkCertificate far_future_expiry) eq_refl eq_refl eq_refl
                  ∅)).
Defined.

Lemma daysUntilExpiration_sign_witness :
  (daysUntilExpiration (mkTime 1700000000 0) now_2026 < 0)%Q.
Proof.
  exact (proj2 (proj1 (daysUntilExpiration_sign (mkTime 1700000000 0) now_2026
                         (conj (Z.le_refl 0) eq_refl) (conj (Z.le_refl 0) eq_refl)))
           eq_refl).
Defined.
